(** * A shallow embedding of the [vector] library

    The library is a mutable three-component [Vector] class
    (vectorClass.ts) and a facade of free functions that return new vectors
    (vectorFunctions.ts, and a second copy of it in the package entry
    point).

    - A JavaScript [number] is modelled as an extended real: a finite value
      carrying a real number, the two infinities and NaN.  Arithmetic on
      finite values is exact (no rounding, no overflow); the non-finite
      values follow the IEEE-754 rules JavaScript uses.  [+0] and [-0] are
      one value, as they are for [===].
    - [Vector] objects live in a heap indexed by references, so that
      identity ("returns the receiver"), aliasing and in-place mutation are
      what they are in the code.  Methods and functions run in a small
      state-and-failure monad over that heap.
    - Where rounding or overflow decides a statement, the code concerned
      is embedded a second time over binary64 floating-point numbers (the
      module [Binary64]), and the statement says which arithmetic it is
      about.
    - The methods [heading] and [heading3D] only read the receiver and
      return [Math.atan2] of its fields, whose value depends on the sign of
      a zero; they are left out. *)

From Stdlib Require Import Floats.PrimFloat.
From Stdlib Require Import Reals Lra Lia.
From stdpp Require Import base option list.

Local Open Scope R_scope.

(** ** Numbers *)

Inductive number : Type :=
| Fin (r : R)
| Infinity
| NegInfinity
| NaN.

Declare Scope js_scope.
Delimit Scope js_scope with J.
Bind Scope js_scope with number.

Definition Rltb (a b : R) : bool := if Rlt_dec a b then true else false.
Definition Reqb (a b : R) : bool := if Req_dec_T a b then true else false.

Definition signed_inf (positive : bool) : number :=
  if positive then Infinity else NegInfinity.

(** The product of a finite [r] with an infinity of the given sign. *)
Definition mul_inf (r : R) (positive : bool) : number :=
  if Rltb 0 r then signed_inf positive
  else if Rltb r 0 then signed_inf (negb positive)
  else NaN.

Definition nneg (a : number) : number :=
  match a with
  | Fin r => Fin (- r)
  | Infinity => NegInfinity
  | NegInfinity => Infinity
  | NaN => NaN
  end.

Definition nadd (a b : number) : number :=
  match a, b with
  | NaN, _ | _, NaN => NaN
  | Fin r, Fin s => Fin (r + s)
  | Infinity, NegInfinity | NegInfinity, Infinity => NaN
  | Infinity, _ | _, Infinity => Infinity
  | NegInfinity, _ | _, NegInfinity => NegInfinity
  end.

Definition nsub (a b : number) : number := nadd a (nneg b).

Definition nmul (a b : number) : number :=
  match a, b with
  | NaN, _ | _, NaN => NaN
  | Fin r, Fin s => Fin (r * s)
  | Fin r, Infinity | Infinity, Fin r => mul_inf r true
  | Fin r, NegInfinity | NegInfinity, Fin r => mul_inf r false
  | Infinity, Infinity | NegInfinity, NegInfinity => Infinity
  | Infinity, NegInfinity | NegInfinity, Infinity => NegInfinity
  end.

(** Division.  A zero divisor is read as [+0]; no call of the library
    reaches that case, every division being guarded. *)
Definition ndiv (a b : number) : number :=
  match a, b with
  | NaN, _ | _, NaN => NaN
  | Fin r, Fin s => if Reqb s 0 then mul_inf r true else Fin (r / s)
  | Fin _, _ => Fin 0
  | Infinity, Fin s => if Reqb s 0 then Infinity else mul_inf s true
  | NegInfinity, Fin s => if Reqb s 0 then NegInfinity else mul_inf s false
  | _, _ => NaN
  end.

(** [a < b], [a > b], [a == b] (the same as [a === b] on numbers) and
    [a !== b]. *)
Definition nlt (a b : number) : bool :=
  match a, b with
  | NaN, _ | _, NaN => false
  | Fin r, Fin s => Rltb r s
  | NegInfinity, NegInfinity => false
  | NegInfinity, _ => true
  | _, NegInfinity => false
  | Infinity, _ => false
  | _, Infinity => true
  end.

Definition ngt (a b : number) : bool := nlt b a.

Definition neq (a b : number) : bool :=
  match a, b with
  | Fin r, Fin s => Reqb r s
  | Infinity, Infinity | NegInfinity, NegInfinity => true
  | _, _ => false
  end.

Definition nne (a b : number) : bool := negb (neq a b).

(** The global [isFinite]. *)
Definition isFinite (a : number) : bool :=
  match a with Fin _ => true | _ => false end.

(** [a || b] on numbers: [0] and NaN are the falsy numbers. *)
Definition truthy (a : number) : bool :=
  match a with
  | Fin r => negb (Reqb r 0)
  | NaN => false
  | _ => true
  end.

Definition or_else (a b : number) : number := if truthy a then a else b.

(** [a ** 2]. *)
Definition pow2 (a : number) : number := nmul a a.

Notation "0" := (Fin 0) : js_scope.
Notation "1" := (Fin 1) : js_scope.
Notation "2" := (Fin 2) : js_scope.
Infix "+" := nadd : js_scope.
Infix "-" := nsub : js_scope.
Infix "*" := nmul : js_scope.
Infix "/" := ndiv : js_scope.
Notation "- a" := (nneg a) : js_scope.
Infix "<?" := nlt : js_scope.
Infix ">?" := ngt (at level 70) : js_scope.
Infix "==?" := neq (at level 70) : js_scope.
Infix "!==?" := nne (at level 70) : js_scope.
Infix "||" := or_else : js_scope.

Definition is_inf (a : number) : bool :=
  match a with Infinity | NegInfinity => true | _ => false end.

Definition Rleb (a b : R) : bool := if Rle_dec a b then true else false.

(** ** The [Math] object

    The built-ins the library calls, after ECMAScript. *)

Module Math.

Definition PI : number := Fin Rtrigo1.PI.

(** [Math.hypot(a, b, c)]: an infinite argument gives [Infinity], even
    beside a NaN; otherwise a NaN argument gives NaN. *)
Definition hypot (a b c : number) : number :=
  if (is_inf a || is_inf b || is_inf c)%bool then Infinity
  else match a, b, c with
       | Fin r, Fin s, Fin t => Fin (sqrt (r * r + s * s + t * t))
       | _, _, _ => NaN
       end.

(** [Math.max(a, b)] and [Math.min(a, b)]: NaN if either is NaN. *)
Definition max (a b : number) : number :=
  match a, b with
  | NaN, _ | _, NaN => NaN
  | _, _ => if (a <? b)%J then b else a
  end.

Definition min (a b : number) : number :=
  match a, b with
  | NaN, _ | _, NaN => NaN
  | _, _ => if (b <? a)%J then b else a
  end.

Definition cos (a : number) : number :=
  match a with Fin r => Fin (Rtrigo_def.cos r) | _ => NaN end.

Definition sin (a : number) : number :=
  match a with Fin r => Fin (Rtrigo_def.sin r) | _ => NaN end.

(** [Math.acos(a)] is NaN outside [-1, 1]. *)
Definition acos (a : number) : number :=
  match a with
  | Fin r => if (Rleb (-1) r && Rleb r 1)%bool then Fin (Ratan.acos r) else NaN
  | _ => NaN
  end.

End Math.

(** ** Objects, references and the heap *)

(** The fields of a [Vector] object. *)
Record Vector : Type := mkVector { x : number; y : number; z : number }.

(** A reference is the index of an object in the heap; [new] appends. *)
Abbreviation ref := nat.
Abbreviation heap := (list Vector).

(** Computations read and write the heap; [None] is the failure of reading
    through a reference that names no object, which no well-typed caller
    can produce. *)
Definition M (A : Type) : Type := heap -> option (A * heap).

Definition ret {A : Type} (a : A) : M A := fun h => Some (a, h).

Definition bind {A B : Type} (m : M A) (k : A -> M B) : M B :=
  fun h => match m h with
           | Some (a, h') => k a h'
           | None => None
           end.

Notation "'let*' a ':=' m 'in' k" := (bind m (fun a => k))
  (at level 10, a name, m at level 100, k at level 200).
Notation "m ';;' k" := (bind m (fun _ => k))
  (at level 100, k at level 200, right associativity).

(** [new Vector(x, y, z)].  The constructor's parameters default to 0; a
    call with fewer arguments is written here with the zeros filled in. *)
Definition new_Vector (x0 y0 z0 : number) : M ref :=
  fun h => Some (length h, h ++ [mkVector x0 y0 z0]).

Definition get_x (r : ref) : M number :=
  fun h => match h !! r with Some v => Some (x v, h) | None => None end.
Definition get_y (r : ref) : M number :=
  fun h => match h !! r with Some v => Some (y v, h) | None => None end.
Definition get_z (r : ref) : M number :=
  fun h => match h !! r with Some v => Some (z v, h) | None => None end.

Definition set_x (r : ref) (n : number) : M unit :=
  fun h => match h !! r with
           | Some v => Some (tt, <[r := mkVector n (y v) (z v)]> h)
           | None => None
           end.
Definition set_y (r : ref) (n : number) : M unit :=
  fun h => match h !! r with
           | Some v => Some (tt, <[r := mkVector (x v) n (z v)]> h)
           | None => None
           end.
Definition set_z (r : ref) (n : number) : M unit :=
  fun h => match h !! r with
           | Some v => Some (tt, <[r := mkVector (x v) (y v) n]> h)
           | None => None
           end.

(** An argument of type [Vector | number]. *)
Inductive VectorOrNumber : Type :=
| IsVector (v : ref)
| IsNumber (n : number).

(** An optional numeric parameter [p = 0]. *)
Definition or0 (p : option number) : number := default (Fin 0) p.

(** ** The class [Vector] (vectorClass.ts) *)

Module VectorClass.

Definition add (this : ref) (x : VectorOrNumber) (y z : option number) : M ref :=
  match x with
  | IsNumber x =>
      let* a := get_x this in set_x this (a + x) ;;
      let* b := get_y this in set_y this (b + or0 y) ;;
      let* c := get_z this in set_z this (c + or0 z) ;;
      ret this
  | IsVector x =>
      let* a := get_x this in let* a' := get_x x in set_x this (a + a') ;;
      let* b := get_y this in let* b' := get_y x in set_y this (b + b') ;;
      let* c := get_z this in let* c' := get_z x in set_z this (c + c') ;;
      ret this
  end.

Definition sub (this : ref) (x : VectorOrNumber) (y z : option number) : M ref :=
  match x with
  | IsNumber x =>
      let* a := get_x this in set_x this (a - x) ;;
      let* b := get_y this in set_y this (b - or0 y) ;;
      let* c := get_z this in set_z this (c - or0 z) ;;
      ret this
  | IsVector x =>
      let* a := get_x this in let* a' := get_x x in set_x this (a - a') ;;
      let* b := get_y this in let* b' := get_y x in set_y this (b - b') ;;
      let* c := get_z this in let* c' := get_z x in set_z this (c - c') ;;
      ret this
  end.

Definition mult (this : ref) (factor : number) : M ref :=
  if negb (isFinite factor) then ret this
  else
    let* a := get_x this in set_x this (a * factor) ;;
    let* b := get_y this in set_y this (b * factor) ;;
    let* c := get_z this in set_z this (c * factor) ;;
    ret this.

Definition div (this : ref) (divisor : number) : M ref :=
  if (negb (isFinite divisor) || (divisor ==? 0)%J)%bool then ret this
  else
    let* a := get_x this in set_x this (a / divisor) ;;
    let* b := get_y this in set_y this (b / divisor) ;;
    let* c := get_z this in set_z this (c / divisor) ;;
    ret this.

(** The parameters [y] and [z] are declared and never read. *)
Definition set (this : ref) (x : VectorOrNumber) (y z : option number) : M ref :=
  match x with
  | IsVector x =>
      let* a := get_x x in set_x this a ;;
      let* b := get_y x in set_y this b ;;
      let* c := get_z x in set_z this c ;;
      ret this
  | IsNumber x =>
      set_x this x ;;
      set_y this x ;;
      set_z this x ;;
      ret this
  end.

Definition copy (this : ref) : M ref :=
  let* a := get_x this in
  let* b := get_y this in
  let* c := get_z this in
  new_Vector a b c.

Definition magSq (this : ref) : M number :=
  let* a := get_x this in
  let* b := get_y this in
  let* c := get_z this in
  ret (a * a + b * b + c * c)%J.

Definition mag (this : ref) : M number :=
  let* a := get_x this in
  let* b := get_y this in
  let* c := get_z this in
  ret (Math.hypot a b c).

Definition normalize (this : ref) : M ref :=
  let* a := get_x this in
  let* b := get_y this in
  let* c := get_z this in
  let mag := Math.hypot a b c in
  if (mag ==? 0)%J then set this (IsNumber 0) (Some 0%J) (Some 0%J)
  else div this mag.

Definition setMag (this : ref) (mag : number) : M ref :=
  let* m := VectorClass.mag this in
  let* r := div this m in
  mult r mag.

Definition max (this vector : ref) : M ref :=
  let* m := mag this in
  let* m' := mag vector in
  if (m >? m')%J then ret this else ret vector.

Definition min (this vector : ref) : M ref :=
  let* m := mag this in
  let* m' := mag vector in
  if (m <? m')%J then ret this else ret vector.

Definition equals (this vector : ref) : M bool :=
  let* a := get_x this in let* a' := get_x vector in
  if negb (a ==? a')%J then ret false else
  let* b := get_y this in let* b' := get_y vector in
  if negb (b ==? b')%J then ret false else
  let* c := get_z this in let* c' := get_z vector in
  ret (c ==? c')%J.

Definition dist (this vector : ref) : M number :=
  let* a := get_x this in let* a' := get_x vector in
  let* b := get_y this in let* b' := get_y vector in
  let* c := get_z this in let* c' := get_z vector in
  ret (Math.hypot (a - a') (b - b') (c - c')).

Definition distSq (this vector : ref) : M number :=
  let* a := get_x this in let* a' := get_x vector in
  let* b := get_y this in let* b' := get_y vector in
  let* c := get_z this in let* c' := get_z vector in
  ret (pow2 (Math.hypot (a - a') (b - b') (c - c'))).

Definition cross (this vector : ref) : M ref :=
  let* ty := get_y this in let* vz := get_z vector in
  let* tz := get_z this in let* vy := get_y vector in
  let* tx := get_x this in let* vx := get_x vector in
  new_Vector (ty * vz - tz * vy) (tz * vx - tx * vz) (tx * vy - ty * vx).

Definition dot (this vector : ref) : M number :=
  let* a := get_x this in let* a' := get_x vector in
  let* b := get_y this in let* b' := get_y vector in
  let* c := get_z this in let* c' := get_z vector in
  ret (a * a' + b * b' + c * c')%J.

Definition maxMag (this : ref) (mag : number) : M ref :=
  let* a := get_x this in
  let* b := get_y this in
  let* c := get_z this in
  let currentMag := Math.hypot a b c in
  if (currentMag >? mag)%J then
    let* r := div this currentMag in mult r mag
  else ret this.

Definition minMag (this : ref) (mag : number) : M ref :=
  let* a := get_x this in
  let* b := get_y this in
  let* c := get_z this in
  let currentMag := Math.hypot a b c in
  if (currentMag <? mag)%J then
    let* r := div this currentMag in mult r mag
  else ret this.

Definition constrainMag (this : ref) (min max : number) : M ref :=
  let* a := get_x this in
  let* b := get_y this in
  let* c := get_z this in
  let mag := Math.hypot a b c in
  if (mag <? min)%J then
    let* r := div this mag in mult r min
  else if (mag >? max)%J then
    let* r := div this mag in mult r max
  else ret this.

Definition toArray (this : ref) : M (list number) :=
  let* a := get_x this in
  let* b := get_y this in
  let* c := get_z this in
  ret [a; b; c].

(** A basis vector left out is a new object: [new Vector(1)],
    [new Vector(0, 1)], [new Vector(0, 0, 1)]. *)
Definition changeOfBasis (this : ref) (vi vj vk : option ref) : M ref :=
  let* vi := match vi with Some r => ret r | None => new_Vector 1 0 0 end in
  let* vj := match vj with Some r => ret r | None => new_Vector 0 1 0 end in
  let* vk := match vk with Some r => ret r | None => new_Vector 0 0 1 end in
  let* x := get_x this in
  let* y := get_y this in
  let* z := get_z this in
  (let* ix := get_x vi in let* jx := get_x vj in let* kx := get_x vk in
   set_x this (x * ix + y * jx + z * kx)) ;;
  (let* iy := get_y vi in let* jy := get_y vj in let* ky := get_y vk in
   set_y this (x * iy + y * jy + z * ky)) ;;
  (let* iz := get_z vi in let* jz := get_z vj in let* kz := get_z vk in
   set_z this (x * iz + y * jz + z * kz)) ;;
  ret this.

Definition lerp (this vector : ref) (alpha : number) : M ref :=
  let internAplha := Math.min (Math.max alpha 0) 1 in
  (let* a := get_x this in let* a' := get_x vector in
   let* a'' := get_x this in set_x this (a + (a' - a'') * internAplha)) ;;
  (let* b := get_y this in let* b' := get_y vector in
   let* b'' := get_y this in set_y this (b + (b' - b'') * internAplha)) ;;
  (let* c := get_z this in let* c' := get_z vector in
   let* c'' := get_z this in set_z this (c + (c' - c'') * internAplha)) ;;
  ret this.

Definition angleBetween (this vector : ref) : M number :=
  let* m := mag this in
  let* m' := mag vector in
  let magMult := (m * m')%J in
  if (magMult ==? 0)%J then ret 0%J
  else
    let* d := dot this vector in
    let dotOverMag := (d / magMult)%J in
    ret (Math.acos (Math.max (Math.min dotOverMag 1) (- (1)))).

Definition rotate (this : ref) (angle : number) : M ref :=
  let cosOfAngle := Math.cos angle in
  let sinOfAngle := Math.sin angle in
  let* x := get_x this in
  (let* b := get_y this in
   set_x this ((x * cosOfAngle + b * - sinOfAngle) || 0)) ;;
  (let* b := get_y this in
   set_y this ((x * sinOfAngle + b * cosOfAngle) || 0)) ;;
  ret this.

Definition rotateX (this : ref) (angle : number) : M ref :=
  let cosOfAngle := Math.cos angle in
  let sinOfAngle := Math.sin angle in
  let* y := get_y this in
  (let* c := get_z this in
   set_y this ((y * cosOfAngle + c * - sinOfAngle) || 0)) ;;
  (let* c := get_z this in
   set_z this ((y * sinOfAngle + c * cosOfAngle) || 0)) ;;
  ret this.

Definition rotateY (this : ref) (angle : number) : M ref :=
  let cosOfAngle := Math.cos angle in
  let sinOfAngle := Math.sin angle in
  let* x := get_x this in
  (let* c := get_z this in
   set_x this ((x * cosOfAngle + c * sinOfAngle) || 0)) ;;
  (let* c := get_z this in
   set_z this ((x * - sinOfAngle + c * cosOfAngle) || 0)) ;;
  ret this.

End VectorClass.

(** ** The free functions (src/vectorFunctions.ts) *)

Module VectorFunctions.

Definition add (vector : ref) (x : VectorOrNumber) (y z : option number) : M ref :=
  match x with
  | IsVector x =>
      let* a := get_x vector in let* a' := get_x x in
      let* b := get_y vector in let* b' := get_y x in
      let* c := get_z vector in let* c' := get_z x in
      new_Vector (a + a') (b + b') (c + c')
  | IsNumber x =>
      let* a := get_x vector in
      let* b := get_y vector in
      let* c := get_z vector in
      new_Vector (a + x) (b + or0 y) (c + or0 z)
  end.

Definition sub (vector : ref) (x : VectorOrNumber) (y z : option number) : M ref :=
  match x with
  | IsVector x =>
      let* a := get_x vector in let* a' := get_x x in
      let* b := get_y vector in let* b' := get_y x in
      let* c := get_z vector in let* c' := get_z x in
      new_Vector (a - a') (b - b') (c - c')
  | IsNumber x =>
      let* a := get_x vector in
      let* b := get_y vector in
      let* c := get_z vector in
      new_Vector (a - x) (b - or0 y) (c - or0 z)
  end.

Definition mult (vector : ref) (factor : number) : M ref :=
  if isFinite factor then
    let* a := get_x vector in
    let* b := get_y vector in
    let* c := get_z vector in
    new_Vector (a * factor) (b * factor) (c * factor)
  else
    let* a := get_x vector in
    let* b := get_y vector in
    let* c := get_z vector in
    new_Vector a b c.

Definition div (vector : ref) (divisor : number) : M ref :=
  if ((divisor !==? 0)%J && isFinite divisor)%bool then
    let inverse := (1 / divisor)%J in
    let* a := get_x vector in
    let* b := get_y vector in
    let* c := get_z vector in
    new_Vector (a * inverse) (b * inverse) (c * inverse)
  else
    let* a := get_x vector in
    let* b := get_y vector in
    let* c := get_z vector in
    new_Vector a b c.

Definition normalize (vector : ref) : M ref :=
  let* a := get_x vector in
  let* b := get_y vector in
  let* c := get_z vector in
  div vector (Math.hypot a b c).

Definition setMag (vector : ref) (mag : number) : M ref :=
  let* a := get_x vector in
  let* b := get_y vector in
  let* c := get_z vector in
  let* r := div vector (Math.hypot a b c) in
  VectorClass.mult r mag.

Definition max (vector otherVector : ref) : M ref :=
  let* m := VectorClass.mag vector in
  let* m' := VectorClass.mag otherVector in
  if (m >? m')%J then VectorClass.copy vector else VectorClass.copy otherVector.

Definition min (vector otherVector : ref) : M ref :=
  let* m := VectorClass.mag vector in
  let* m' := VectorClass.mag otherVector in
  if (m <? m')%J then VectorClass.copy vector else VectorClass.copy otherVector.

Definition equals (vector otherVector : ref) : M bool :=
  let* a := get_x vector in let* a' := get_x otherVector in
  if negb (a ==? a')%J then ret false else
  let* b := get_y vector in let* b' := get_y otherVector in
  if negb (b ==? b')%J then ret false else
  let* c := get_z vector in let* c' := get_z otherVector in
  ret (c ==? c')%J.

Definition dist (vector otherVector : ref) : M number :=
  let* a := get_x vector in let* a' := get_x otherVector in
  let* b := get_y vector in let* b' := get_y otherVector in
  let* c := get_z vector in let* c' := get_z otherVector in
  ret (Math.hypot (a - a') (b - b') (c - c')).

Definition distSq (vector otherVector : ref) : M number :=
  let* a := get_x vector in let* a' := get_x otherVector in
  let* b := get_y vector in let* b' := get_y otherVector in
  let* c := get_z vector in let* c' := get_z otherVector in
  ret (pow2 (Math.hypot (a - a') (b - b') (c - c'))).

Definition cross (vector otherVector : ref) : M ref :=
  let* vy := get_y vector in let* oz := get_z otherVector in
  let* vz := get_z vector in let* oy := get_y otherVector in
  let* vx := get_x vector in let* ox := get_x otherVector in
  new_Vector (vy * oz - vz * oy) (vz * ox - vx * oz) (vx * oy - vy * ox).

Definition dot (vector otherVector : ref) : M number :=
  let* a := get_x vector in let* a' := get_x otherVector in
  let* b := get_y vector in let* b' := get_y otherVector in
  let* c := get_z vector in let* c' := get_z otherVector in
  ret (a * a' + b * b' + c * c')%J.

Definition toArray (vector : ref) : M (list number) :=
  let* a := get_x vector in
  let* b := get_y vector in
  let* c := get_z vector in
  ret [a; b; c].

Definition changeOfBasis (vector : ref) (vi vj vk : option ref) : M ref :=
  let* vi := match vi with Some r => ret r | None => new_Vector 1 0 0 end in
  let* vj := match vj with Some r => ret r | None => new_Vector 0 1 0 end in
  let* vk := match vk with Some r => ret r | None => new_Vector 0 0 1 end in
  let* x := get_x vector in
  let* y := get_y vector in
  let* z := get_z vector in
  let* ix := get_x vi in let* jx := get_x vj in let* kx := get_x vk in
  let* iy := get_y vi in let* jy := get_y vj in let* ky := get_y vk in
  let* iz := get_z vi in let* jz := get_z vj in let* kz := get_z vk in
  new_Vector (x * ix + y * jx + z * kx)
             (x * iy + y * jy + z * ky)
             (x * iz + y * jz + z * kz).

Definition lerp (vector otherVector : ref) (alpha : number) : M ref :=
  let* a := get_x vector in let* a' := get_x otherVector in
  let* b := get_y vector in let* b' := get_y otherVector in
  let* c := get_z vector in let* c' := get_z otherVector in
  new_Vector (a + (a' - a) * alpha)
             (b + (b' - b) * alpha)
             (c + (c' - c) * alpha).

(** Falling off the end of the function returns [undefined], here
    [None]. *)
Definition angleBetween (vector otherVector : ref) : M (option number) :=
  let* m := VectorClass.mag vector in
  let* m' := VectorClass.mag otherVector in
  let magMult := (m * m')%J in
  if (magMult !==? 0)%J then
    let* d := VectorClass.dot vector otherVector in
    let dotOverMag := (d / magMult)%J in
    ret (Some (Math.acos (Math.max (Math.min dotOverMag 1) (- (1)))))
  else ret None.

Definition rotate (vector : ref) (angle : number) : M ref :=
  let cosOfAngle := Math.cos angle in
  let sinOfAngle := Math.sin angle in
  let* a := get_x vector in
  let* b := get_y vector in
  let* c := get_z vector in
  new_Vector (a * cosOfAngle + b * - sinOfAngle)
             (a * sinOfAngle + b * cosOfAngle)
             c.

Definition rotateX (vector : ref) (angle : number) : M ref :=
  let cosOfAngle := Math.cos angle in
  let sinOfAngle := Math.sin angle in
  let* a := get_x vector in
  let* b := get_y vector in
  let* c := get_z vector in
  new_Vector a
             (b * cosOfAngle + c * - sinOfAngle)
             (b * sinOfAngle + c * cosOfAngle).

Definition rotateY (vector : ref) (angle : number) : M ref :=
  let cosOfAngle := Math.cos angle in
  let sinOfAngle := Math.sin angle in
  let* a := get_x vector in
  let* b := get_y vector in
  let* c := get_z vector in
  new_Vector (a * cosOfAngle + c * sinOfAngle)
             b
             (a * - sinOfAngle + c * cosOfAngle).

Definition fromAngle (angle : number) : M ref :=
  new_Vector (Math.cos angle) (Math.sin angle) 0.

Definition fromAngles (polar azimuth : number) : M ref :=
  new_Vector (Math.sin azimuth * Math.cos polar)
             (Math.sin azimuth * Math.sin polar)
             (Math.cos azimuth).

(** [random] and [random'] are what the calls of [Math.random()]
    return. *)
Definition random2D (random : number) : M ref :=
  fromAngle (random * Math.PI * 2).

Definition random3D (random random' : number) : M ref :=
  fromAngles (random * Math.PI * 2) (random' * Math.PI * 2).

Definition scalarProyection (vertex vector otherVector : ref) : M ref :=
  let* vertexVector := sub vector (IsVector vertex) None None in
  let* vertexOtherVector := sub otherVector (IsVector vertex) None None in
  VectorClass.normalize vertexVector ;;
  (let* d := VectorClass.dot vertexOtherVector vertexVector in
   VectorClass.mult vertexVector d) ;;
  add vertex (IsVector vertexVector) None None.

End VectorFunctions.

(** ** The package entry point: the free functions again, as arrow
    functions, and the constant vectors *)

Module Index.

Definition add (vector : ref) (x : VectorOrNumber) (y z : option number) : M ref :=
  match x with
  | IsVector x =>
      let* a := get_x vector in let* a' := get_x x in
      let* b := get_y vector in let* b' := get_y x in
      let* c := get_z vector in let* c' := get_z x in
      new_Vector (a + a') (b + b') (c + c')
  | IsNumber x =>
      let* a := get_x vector in
      let* b := get_y vector in
      let* c := get_z vector in
      new_Vector (a + x) (b + or0 y) (c + or0 z)
  end.

Definition sub (vector : ref) (x : VectorOrNumber) (y z : option number) : M ref :=
  match x with
  | IsVector x =>
      let* a := get_x vector in let* a' := get_x x in
      let* b := get_y vector in let* b' := get_y x in
      let* c := get_z vector in let* c' := get_z x in
      new_Vector (a - a') (b - b') (c - c')
  | IsNumber x =>
      let* a := get_x vector in
      let* b := get_y vector in
      let* c := get_z vector in
      new_Vector (a - x) (b - or0 y) (c - or0 z)
  end.

Definition mult (vector : ref) (factor : number) : M ref :=
  if isFinite factor then
    let* a := get_x vector in
    let* b := get_y vector in
    let* c := get_z vector in
    new_Vector (a * factor) (b * factor) (c * factor)
  else
    let* a := get_x vector in
    let* b := get_y vector in
    let* c := get_z vector in
    new_Vector a b c.

Definition div (vector : ref) (divisor : number) : M ref :=
  if ((divisor !==? 0)%J && isFinite divisor)%bool then
    let inverse := (1 / divisor)%J in
    let* a := get_x vector in
    let* b := get_y vector in
    let* c := get_z vector in
    new_Vector (a * inverse) (b * inverse) (c * inverse)
  else
    let* a := get_x vector in
    let* b := get_y vector in
    let* c := get_z vector in
    new_Vector a b c.

Definition normalize (vector : ref) : M ref :=
  let* a := get_x vector in
  let* b := get_y vector in
  let* c := get_z vector in
  div vector (Math.hypot a b c).

Definition setMag (vector : ref) (mag : number) : M ref :=
  let* a := get_x vector in
  let* b := get_y vector in
  let* c := get_z vector in
  let* r := div vector (Math.hypot a b c) in
  VectorClass.mult r mag.

Definition max (vector otherVector : ref) : M ref :=
  let* m := VectorClass.mag vector in
  let* m' := VectorClass.mag otherVector in
  if (m >? m')%J then VectorClass.copy vector else VectorClass.copy otherVector.

Definition min (vector otherVector : ref) : M ref :=
  let* m := VectorClass.mag vector in
  let* m' := VectorClass.mag otherVector in
  if (m <? m')%J then VectorClass.copy vector else VectorClass.copy otherVector.

Definition equals (vector otherVector : ref) : M bool :=
  let* a := get_x vector in let* a' := get_x otherVector in
  if negb (a ==? a')%J then ret false else
  let* b := get_y vector in let* b' := get_y otherVector in
  if negb (b ==? b')%J then ret false else
  let* c := get_z vector in let* c' := get_z otherVector in
  ret (c ==? c')%J.

Definition dist (vector otherVector : ref) : M number :=
  let* a := get_x vector in let* a' := get_x otherVector in
  let* b := get_y vector in let* b' := get_y otherVector in
  let* c := get_z vector in let* c' := get_z otherVector in
  ret (Math.hypot (a - a') (b - b') (c - c')).

Definition distSq (vector otherVector : ref) : M number :=
  let* a := get_x vector in let* a' := get_x otherVector in
  let* b := get_y vector in let* b' := get_y otherVector in
  let* c := get_z vector in let* c' := get_z otherVector in
  ret (pow2 (Math.hypot (a - a') (b - b') (c - c'))).

Definition cross (vector otherVector : ref) : M ref :=
  let* vy := get_y vector in let* oz := get_z otherVector in
  let* vz := get_z vector in let* oy := get_y otherVector in
  let* vx := get_x vector in let* ox := get_x otherVector in
  new_Vector (vy * oz - vz * oy) (vz * ox - vx * oz) (vx * oy - vy * ox).

Definition dot (vector otherVector : ref) : M number :=
  let* a := get_x vector in let* a' := get_x otherVector in
  let* b := get_y vector in let* b' := get_y otherVector in
  let* c := get_z vector in let* c' := get_z otherVector in
  ret (a * a' + b * b' + c * c')%J.

Definition toArray (vector : ref) : M (list number) :=
  let* a := get_x vector in
  let* b := get_y vector in
  let* c := get_z vector in
  ret [a; b; c].

Definition changeOfBasis (vector : ref) (vi vj vk : option ref) : M ref :=
  let* vi := match vi with Some r => ret r | None => new_Vector 1 0 0 end in
  let* vj := match vj with Some r => ret r | None => new_Vector 0 1 0 end in
  let* vk := match vk with Some r => ret r | None => new_Vector 0 0 1 end in
  let* x := get_x vector in
  let* y := get_y vector in
  let* z := get_z vector in
  let* ix := get_x vi in let* jx := get_x vj in let* kx := get_x vk in
  let* iy := get_y vi in let* jy := get_y vj in let* ky := get_y vk in
  let* iz := get_z vi in let* jz := get_z vj in let* kz := get_z vk in
  new_Vector (x * ix + y * jx + z * kx)
             (x * iy + y * jy + z * ky)
             (x * iz + y * jz + z * kz).

Definition lerp (vector otherVector : ref) (alpha : number) : M ref :=
  let* a := get_x vector in let* a' := get_x otherVector in
  let* b := get_y vector in let* b' := get_y otherVector in
  let* c := get_z vector in let* c' := get_z otherVector in
  new_Vector (a + (a' - a) * alpha)
             (b + (b' - b) * alpha)
             (c + (c' - c) * alpha).

(** Falling off the end of the function returns [undefined], here
    [None]. *)
Definition angleBetween (vector otherVector : ref) : M (option number) :=
  let* m := VectorClass.mag vector in
  let* m' := VectorClass.mag otherVector in
  let magMult := (m * m')%J in
  if (magMult !==? 0)%J then
    let* d := VectorClass.dot vector otherVector in
    let dotOverMag := (d / magMult)%J in
    ret (Some (Math.acos (Math.max (Math.min dotOverMag 1) (- (1)))))
  else ret None.

Definition rotate (vector : ref) (angle : number) : M ref :=
  let cosOfAngle := Math.cos angle in
  let sinOfAngle := Math.sin angle in
  let* a := get_x vector in
  let* b := get_y vector in
  let* c := get_z vector in
  new_Vector (a * cosOfAngle + b * - sinOfAngle)
             (a * sinOfAngle + b * cosOfAngle)
             c.

Definition rotateX (vector : ref) (angle : number) : M ref :=
  let cosOfAngle := Math.cos angle in
  let sinOfAngle := Math.sin angle in
  let* a := get_x vector in
  let* b := get_y vector in
  let* c := get_z vector in
  new_Vector a
             (b * cosOfAngle + c * - sinOfAngle)
             (b * sinOfAngle + c * cosOfAngle).

Definition rotateY (vector : ref) (angle : number) : M ref :=
  let cosOfAngle := Math.cos angle in
  let sinOfAngle := Math.sin angle in
  let* a := get_x vector in
  let* b := get_y vector in
  let* c := get_z vector in
  new_Vector (a * cosOfAngle + c * sinOfAngle)
             b
             (a * - sinOfAngle + c * cosOfAngle).

Definition fromAngle (angle : number) : M ref :=
  new_Vector (Math.cos angle) (Math.sin angle) 0.

Definition fromAngles (polar azimuth : number) : M ref :=
  new_Vector (Math.sin azimuth * Math.cos polar)
             (Math.sin azimuth * Math.sin polar)
             (Math.cos azimuth).

(** [random] and [random'] are what the calls of [Math.random()]
    return. *)
Definition random2D (random : number) : M ref :=
  fromAngle (random * Math.PI * 2).

Definition random3D (random random' : number) : M ref :=
  fromAngles (random * Math.PI * 2) (random' * Math.PI * 2).

Definition scalarProyection (vertex vector otherVector : ref) : M ref :=
  let* vertexVector := sub vector (IsVector vertex) None None in
  let* vertexOtherVector := sub otherVector (IsVector vertex) None None in
  VectorClass.normalize vertexVector ;;
  (let* d := VectorClass.dot vertexOtherVector vertexVector in
   VectorClass.mult vertexVector d) ;;
  add vertex (IsVector vertexVector) None None.

Definition right : M ref := new_Vector 1 0 0.
Definition left : M ref := new_Vector (- (1)) 0 0.
Definition up : M ref := new_Vector 0 1 0.
Definition down : M ref := new_Vector 0 (- (1)) 0.
Definition forward : M ref := new_Vector 0 0 1.
Definition back : M ref := new_Vector 0 0 (- (1)).
Definition zero : M ref := new_Vector 0 0 0.
Definition one : M ref := new_Vector 1 1 1.

Definition createVector (x y z : option number) : M ref :=
  new_Vector (or0 x) (or0 y) (or0 z).

End Index.

(** ** src/staticFnVector.ts: [add] once more, [y] and [z] without
    defaults *)

Module StaticFnVector.

Definition add (vector : ref) (x : VectorOrNumber) (y z : number) : M ref :=
  match x with
  | IsVector x =>
      let* a := get_x vector in let* a' := get_x x in
      let* b := get_y vector in let* b' := get_y x in
      let* c := get_z vector in let* c' := get_z x in
      new_Vector (a + a') (b + b') (c + c')
  | IsNumber x =>
      let* a := get_x vector in
      let* b := get_y vector in
      let* c := get_z vector in
      new_Vector (a + x) (b + y) (c + z)
  end.

End StaticFnVector.

(** * Auxiliary definitions for the statements *)

(** The magnitude of an object, [Math.hypot(v.x, v.y, v.z)]. *)
Definition hypot3 (v : Vector) : number := Math.hypot (x v) (y v) (z v).

(** What [mult] and [div] leave in the fields of their receiver. *)
Definition mult_fields (v : Vector) (factor : number) : Vector :=
  if isFinite factor
  then mkVector (x v * factor) (y v * factor) (z v * factor)
  else v.

Definition div_fields (v : Vector) (divisor : number) : Vector :=
  if (negb (isFinite divisor) || (divisor ==? 0)%J)%bool
  then v
  else mkVector (x v / divisor) (y v / divisor) (z v / divisor).

(** What the free function [div] puts in the fields of its result: it
    multiplies by [1 / divisor] where the method divides. *)
Definition inverse_fields (v : Vector) (divisor : number) : Vector :=
  if ((divisor !==? 0)%J && isFinite divisor)%bool
  then mkVector (x v * (1 / divisor)) (y v * (1 / divisor)) (z v * (1 / divisor))
  else v.

(** What [normalize] leaves in the fields of its receiver. *)
Definition normalize_fields (v : Vector) : Vector :=
  if (hypot3 v ==? 0)%J then mkVector 0 0 0 else div_fields v (hypot3 v).

(** The fields of the first object [scalarProyection] allocates, once it
    is normalized and scaled: [p], [v] and [w] are the fields of [vertex],
    [vector] and [otherVector]. *)
Definition difference (v p : Vector) : Vector :=
  mkVector (x v - x p) (y v - y p) (z v - z p).

Definition projected (p v w : Vector) : Vector :=
  let n := normalize_fields (difference v p) in
  let o := difference w p in
  mult_fields n (x o * x n + y o * y n + z o * z n).

(** A basis vector of [changeOfBasis]: the one passed, or a new object
    with fields [d] when it is left out; with the heap that results. *)
Definition basis_or (o : option ref) (d : Vector) (h : heap) : ref * heap :=
  match o with
  | Some r => (r, h)
  | None => (length h, h ++ [d])
  end.

(** ** Calls of the free functions

    To speak of every function of the facade at once, a call is a value:
    the function and its arguments. *)

Inductive call : Type :=
| call_add (vector : ref) (x : VectorOrNumber) (y z : option number)
| call_sub (vector : ref) (x : VectorOrNumber) (y z : option number)
| call_mult (vector : ref) (factor : number)
| call_div (vector : ref) (divisor : number)
| call_normalize (vector : ref)
| call_setMag (vector : ref) (mag : number)
| call_max (vector otherVector : ref)
| call_min (vector otherVector : ref)
| call_equals (vector otherVector : ref)
| call_dist (vector otherVector : ref)
| call_distSq (vector otherVector : ref)
| call_cross (vector otherVector : ref)
| call_dot (vector otherVector : ref)
| call_toArray (vector : ref)
| call_changeOfBasis (vector : ref) (vi vj vk : option ref)
| call_lerp (vector otherVector : ref) (alpha : number)
| call_angleBetween (vector otherVector : ref)
| call_rotate (vector : ref) (angle : number)
| call_rotateX (vector : ref) (angle : number)
| call_rotateY (vector : ref) (angle : number)
| call_fromAngle (angle : number)
| call_fromAngles (polar azimuth : number)
| call_random2D (random : number)
| call_random3D (random random' : number)
| call_scalarProyection (vertex vector otherVector : ref)
| call_right
| call_left
| call_up
| call_down
| call_forward
| call_back
| call_zero
| call_one
| call_createVector (x y z : option number).

(** What a call returns: an object, or a value that is not an object. *)
Inductive value : Type :=
| Object (r : ref)
| Number (n : number)
| Boolean (b : bool)
| Array (l : list number)
| Undefined.

Definition returning {A : Type} (f : A -> value) (m : M A) : M value :=
  let* a := m in ret (f a).

(** The free function applied to its arguments. *)
Definition apply_function (c : call) : M value :=
  match c with
  | call_add v x y z => returning Object (VectorFunctions.add v x y z)
  | call_sub v x y z => returning Object (VectorFunctions.sub v x y z)
  | call_mult v f => returning Object (VectorFunctions.mult v f)
  | call_div v d => returning Object (VectorFunctions.div v d)
  | call_normalize v => returning Object (VectorFunctions.normalize v)
  | call_setMag v m => returning Object (VectorFunctions.setMag v m)
  | call_max v o => returning Object (VectorFunctions.max v o)
  | call_min v o => returning Object (VectorFunctions.min v o)
  | call_equals v o => returning Boolean (VectorFunctions.equals v o)
  | call_dist v o => returning Number (VectorFunctions.dist v o)
  | call_distSq v o => returning Number (VectorFunctions.distSq v o)
  | call_cross v o => returning Object (VectorFunctions.cross v o)
  | call_dot v o => returning Number (VectorFunctions.dot v o)
  | call_toArray v => returning Array (VectorFunctions.toArray v)
  | call_changeOfBasis v vi vj vk =>
      returning Object (VectorFunctions.changeOfBasis v vi vj vk)
  | call_lerp v o alpha => returning Object (VectorFunctions.lerp v o alpha)
  | call_angleBetween v o =>
      returning (fun r => match r with Some n => Number n | None => Undefined end)
        (VectorFunctions.angleBetween v o)
  | call_rotate v angle => returning Object (VectorFunctions.rotate v angle)
  | call_rotateX v angle => returning Object (VectorFunctions.rotateX v angle)
  | call_rotateY v angle => returning Object (VectorFunctions.rotateY v angle)
  | call_fromAngle angle => returning Object (VectorFunctions.fromAngle angle)
  | call_fromAngles polar azimuth =>
      returning Object (VectorFunctions.fromAngles polar azimuth)
  | call_random2D u => returning Object (VectorFunctions.random2D u)
  | call_random3D u u' => returning Object (VectorFunctions.random3D u u')
  | call_scalarProyection p v o =>
      returning Object (VectorFunctions.scalarProyection p v o)
  | call_right => returning Object Index.right
  | call_left => returning Object Index.left
  | call_up => returning Object Index.up
  | call_down => returning Object Index.down
  | call_forward => returning Object Index.forward
  | call_back => returning Object Index.back
  | call_zero => returning Object Index.zero
  | call_one => returning Object Index.one
  | call_createVector x y z => returning Object (Index.createVector x y z)
  end.

(** The vectors passed to a call. *)
Definition passed (x : VectorOrNumber) : list ref :=
  match x with IsVector o => [o] | IsNumber _ => [] end.

Definition arguments (c : call) : list ref :=
  match c with
  | call_add v x _ _ | call_sub v x _ _ => v :: passed x
  | call_mult v _ | call_div v _ | call_normalize v | call_setMag v _
  | call_toArray v | call_rotate v _ | call_rotateX v _ | call_rotateY v _ => [v]
  | call_max v o | call_min v o | call_equals v o | call_dist v o
  | call_distSq v o | call_cross v o | call_dot v o | call_lerp v o _
  | call_angleBetween v o => [v; o]
  | call_changeOfBasis v vi vj vk =>
      v :: option_list vi ++ option_list vj ++ option_list vk
  | call_scalarProyection p v o => [p; v; o]
  | _ => []
  end.

(** Every vector passed to the call is an object of the heap. *)
Definition well_formed (h : heap) (c : call) : Prop :=
  Forall (fun r => is_Some (h !! r)) (arguments c).

(** The method of the class that a free function mirrors, called with the
    same arguments on a fresh copy of the first vector; [None] for the
    functions that mirror no method. *)
Definition apply_method (c : call) : option (M value) :=
  match c with
  | call_add v x y z =>
      Some (let* r := VectorClass.copy v in returning Object (VectorClass.add r x y z))
  | call_sub v x y z =>
      Some (let* r := VectorClass.copy v in returning Object (VectorClass.sub r x y z))
  | call_mult v f =>
      Some (let* r := VectorClass.copy v in returning Object (VectorClass.mult r f))
  | call_div v d =>
      Some (let* r := VectorClass.copy v in returning Object (VectorClass.div r d))
  | call_normalize v =>
      Some (let* r := VectorClass.copy v in returning Object (VectorClass.normalize r))
  | call_setMag v m =>
      Some (let* r := VectorClass.copy v in returning Object (VectorClass.setMag r m))
  | call_max v o =>
      Some (let* r := VectorClass.copy v in returning Object (VectorClass.max r o))
  | call_min v o =>
      Some (let* r := VectorClass.copy v in returning Object (VectorClass.min r o))
  | call_equals v o =>
      Some (let* r := VectorClass.copy v in returning Boolean (VectorClass.equals r o))
  | call_dist v o =>
      Some (let* r := VectorClass.copy v in returning Number (VectorClass.dist r o))
  | call_distSq v o =>
      Some (let* r := VectorClass.copy v in returning Number (VectorClass.distSq r o))
  | call_cross v o =>
      Some (let* r := VectorClass.copy v in returning Object (VectorClass.cross r o))
  | call_dot v o =>
      Some (let* r := VectorClass.copy v in returning Number (VectorClass.dot r o))
  | call_toArray v =>
      Some (let* r := VectorClass.copy v in returning Array (VectorClass.toArray r))
  | call_changeOfBasis v vi vj vk =>
      Some (let* r := VectorClass.copy v in
            returning Object (VectorClass.changeOfBasis r vi vj vk))
  | call_lerp v o alpha =>
      Some (let* r := VectorClass.copy v in returning Object (VectorClass.lerp r o alpha))
  | call_angleBetween v o =>
      Some (let* r := VectorClass.copy v in
            returning Number (VectorClass.angleBetween r o))
  | call_rotate v angle =>
      Some (let* r := VectorClass.copy v in returning Object (VectorClass.rotate r angle))
  | call_rotateX v angle =>
      Some (let* r := VectorClass.copy v in returning Object (VectorClass.rotateX r angle))
  | call_rotateY v angle =>
      Some (let* r := VectorClass.copy v in returning Object (VectorClass.rotateY r angle))
  | _ => None
  end.

(** What a caller sees of a result: the fields of a returned object, or
    the returned value. *)
Inductive observed : Type :=
| Fields (v : Vector)
| Plain (n : number)
| Truth (b : bool)
| Items (l : list number)
| Nothing.

Definition observe (o : option (value * heap)) : option observed :=
  match o with
  | Some (Object r, h) => Fields <$> h !! r
  | Some (Number n, _) => Some (Plain n)
  | Some (Boolean b, _) => Some (Truth b)
  | Some (Array l, _) => Some (Items l)
  | Some (Undefined, _) => Some Nothing
  | None => None
  end.

(** Where a method differs from its free function by construction: the
    rotations of the class replace a rotated coordinate that is [0] or NaN
    by [0], and the method [angleBetween] returns [0] where the function
    returns [undefined]. *)
Definition method_view (c : call) (o : observed) : observed :=
  match c, o with
  | call_rotate _ _, Fields v => Fields (mkVector (x v || 0) (y v || 0) (z v))
  | call_rotateX _ _, Fields v => Fields (mkVector (x v) (y v || 0) (z v || 0))
  | call_rotateY _ _, Fields v => Fields (mkVector (x v || 0) (y v) (z v || 0))
  | call_angleBetween _ _, Nothing => Plain 0
  | _, _ => o
  end.

(** The interpolation factor of a call of [lerp] lies in [0, 1]. *)
Definition alpha_in_range (c : call) : Prop :=
  match c with
  | call_lerp _ _ alpha => exists r, alpha = Fin r /\ 0 <= r <= 1
  | _ => True
  end.

(** What a caller sees of the mirrored method called on a fresh copy. *)
Definition observe_method (c : call) (h : heap) : option observed :=
  match apply_method c with
  | Some m => observe (m h)
  | None => None
  end.

(** How the result [o] of a free function and the result [o'] of the
    method it mirrors, called on a fresh copy, are related.  [div],
    [normalize] and [setMag] do not share a formula: the free function
    multiplies each field by [1 / divisor] where the method divides it by
    [divisor], so each side is given by its own formula.  Every other
    function computes the expression its method computes, and the two
    results are the same up to [method_view]. *)
Definition mirrors (c : call) (h : heap) (o o' : observed) : Prop :=
  match c with
  | call_div v d =>
      exists u, h !! v = Some u /\
        o = Fields (inverse_fields u d) /\
        o' = Fields (div_fields u d)
  | call_normalize v =>
      exists u, h !! v = Some u /\
        o = Fields (inverse_fields u (hypot3 u)) /\
        o' = Fields (normalize_fields u)
  | call_setMag v m =>
      exists u, h !! v = Some u /\
        o = Fields (mult_fields (inverse_fields u (hypot3 u)) m) /\
        o' = Fields (mult_fields (div_fields u (hypot3 u)) m)
  | _ => o' = method_view c o
  end.

(** ** Calls of the methods that work in place

    A call of a method that writes the fields of its receiver, as a value:
    the method and its arguments, the receiver apart. *)

Inductive mutation : Type :=
| do_add (x : VectorOrNumber) (y z : option number)
| do_sub (x : VectorOrNumber) (y z : option number)
| do_mult (factor : number)
| do_div (divisor : number)
| do_set (x : VectorOrNumber) (y z : option number)
| do_normalize
| do_setMag (mag : number)
| do_maxMag (mag : number)
| do_minMag (mag : number)
| do_constrainMag (min max : number)
| do_changeOfBasis (vi vj vk : option ref)
| do_lerp (vector : ref) (alpha : number)
| do_rotate (angle : number)
| do_rotateX (angle : number)
| do_rotateY (angle : number).

Definition apply_mutation (this : ref) (m : mutation) : M ref :=
  match m with
  | do_add x y z => VectorClass.add this x y z
  | do_sub x y z => VectorClass.sub this x y z
  | do_mult f => VectorClass.mult this f
  | do_div d => VectorClass.div this d
  | do_set x y z => VectorClass.set this x y z
  | do_normalize => VectorClass.normalize this
  | do_setMag m => VectorClass.setMag this m
  | do_maxMag m => VectorClass.maxMag this m
  | do_minMag m => VectorClass.minMag this m
  | do_constrainMag lo hi => VectorClass.constrainMag this lo hi
  | do_changeOfBasis vi vj vk => VectorClass.changeOfBasis this vi vj vk
  | do_lerp o alpha => VectorClass.lerp this o alpha
  | do_rotate angle => VectorClass.rotate this angle
  | do_rotateX angle => VectorClass.rotateX this angle
  | do_rotateY angle => VectorClass.rotateY this angle
  end.

(** The vectors passed to such a call. *)
Definition mutation_arguments (m : mutation) : list ref :=
  match m with
  | do_add x _ _ | do_sub x _ _ | do_set x _ _ => passed x
  | do_changeOfBasis vi vj vk =>
      option_list vi ++ option_list vj ++ option_list vk
  | do_lerp o _ => [o]
  | _ => []
  end.

(** The fields of an object are three finite numbers. *)
Definition finite (v : Vector) : Prop :=
  exists a b c : R, v = mkVector (Fin a) (Fin b) (Fin c).

(** * The same code over IEEE-754 doubles

    A JavaScript [number] is a binary64 floating-point value.  The model
    above computes on finite numbers exactly, so what the code does where
    a result is rounded or overflows cannot be seen in it.  The methods
    and functions for which that decides a statement below ([div],
    [normalize] and what they call) are embedded a second time here, over
    the binary64 numbers of the kernel: every operation is the correctly
    rounded IEEE-754 one, [+0] and [-0] are two values that [==] and
    [===] equate, and every definition evaluates. *)

Declare Scope binary64_scope.
Delimit Scope binary64_scope with B.

Module Binary64.

Local Open Scope float_scope.

(** The global [isFinite]. *)
Definition isFinite (a : float) : bool := negb (is_nan a || is_infinity a).

Module Math.

(** The running maximum of the absolute values, from [0]. *)
Definition larger (m a : float) : float := if m <? a then a else m.

(** One step of a sum of squares of [a / m] with Kahan compensation. *)
Definition compensated (m : float) (acc : float * float) (a : float) : float * float :=
  let n := a / m in
  let summand := n * n - snd acc in
  let preliminary := fst acc + summand in
  (preliminary, (preliminary - fst acc) - summand).

(** [Math.hypot(a, b, c)]: an infinite argument gives [Infinity], even
    beside a NaN; otherwise a NaN argument gives NaN, and three zeros
    give [+0].  For the other arguments ECMAScript asks for an
    approximation of the square root of the sum of the squares and leaves
    its accuracy to the implementation; this one scales the arguments by
    the largest absolute value, which keeps the squares from overflowing,
    and sums them with compensation.  Whenever the exact square root is
    above the largest double, as in the statements below that use it, the
    result is [Infinity] under any implementation. *)
Definition hypot (a b c : float) : float :=
  if (is_infinity a || is_infinity b || is_infinity c)%bool then infinity
  else if (is_nan a || is_nan b || is_nan c)%bool then nan
  else
    let a' := PrimFloat.abs a in
    let b' := PrimFloat.abs b in
    let c' := PrimFloat.abs c in
    let m := larger (larger (larger 0 a') b') c' in
    if m =? 0 then 0
    else
      let sum := fst (fold_left (compensated m) [a'; b'; c'] (0, 0)) in
      PrimFloat.sqrt sum * m.

End Math.

Record Vector : Type := mkVector { x : float; y : float; z : float }.

Abbreviation heap := (list Vector).

Definition M (A : Type) : Type := heap -> option (A * heap).

Definition ret {A : Type} (a : A) : M A := fun h => Some (a, h).

Definition bind {A B : Type} (m : M A) (k : A -> M B) : M B :=
  fun h => match m h with
           | Some (a, h') => k a h'
           | None => None
           end.

Notation "'let*' a ':=' m 'in' k" := (bind m (fun a => k))
  (at level 10, a name, m at level 100, k at level 200) : binary64_scope.
Notation "m ';;' k" := (bind m (fun _ => k))
  (at level 100, k at level 200, right associativity) : binary64_scope.

Local Open Scope binary64_scope.

Definition new_Vector (x0 y0 z0 : float) : M ref :=
  fun h => Some (length h, h ++ [mkVector x0 y0 z0]).

Definition get_x (r : ref) : M float :=
  fun h => match h !! r with Some v => Some (x v, h) | None => None end.
Definition get_y (r : ref) : M float :=
  fun h => match h !! r with Some v => Some (y v, h) | None => None end.
Definition get_z (r : ref) : M float :=
  fun h => match h !! r with Some v => Some (z v, h) | None => None end.

Definition set_x (r : ref) (n : float) : M unit :=
  fun h => match h !! r with
           | Some v => Some (tt, <[r := mkVector n (y v) (z v)]> h)
           | None => None
           end.
Definition set_y (r : ref) (n : float) : M unit :=
  fun h => match h !! r with
           | Some v => Some (tt, <[r := mkVector (x v) n (z v)]> h)
           | None => None
           end.
Definition set_z (r : ref) (n : float) : M unit :=
  fun h => match h !! r with
           | Some v => Some (tt, <[r := mkVector (x v) (y v) n]> h)
           | None => None
           end.

Inductive VectorOrNumber : Type :=
| IsVector (v : ref)
| IsNumber (n : float).

Module VectorClass.

Definition div (this : ref) (divisor : float) : M ref :=
  if (negb (isFinite divisor) || (divisor =? 0))%bool then ret this
  else
    let* a := get_x this in set_x this (a / divisor) ;;
    let* b := get_y this in set_y this (b / divisor) ;;
    let* c := get_z this in set_z this (c / divisor) ;;
    ret this.

Definition set (this : ref) (x : VectorOrNumber) (y z : option float) : M ref :=
  match x with
  | IsVector x =>
      let* a := get_x x in set_x this a ;;
      let* b := get_y x in set_y this b ;;
      let* c := get_z x in set_z this c ;;
      ret this
  | IsNumber x =>
      set_x this x ;;
      set_y this x ;;
      set_z this x ;;
      ret this
  end.

Definition copy (this : ref) : M ref :=
  let* a := get_x this in
  let* b := get_y this in
  let* c := get_z this in
  new_Vector a b c.

Definition mag (this : ref) : M float :=
  let* a := get_x this in
  let* b := get_y this in
  let* c := get_z this in
  ret (Math.hypot a b c).

Definition normalize (this : ref) : M ref :=
  let* a := get_x this in
  let* b := get_y this in
  let* c := get_z this in
  let mag := Math.hypot a b c in
  if mag =? 0 then set this (IsNumber 0) (Some 0) (Some 0)
  else div this mag.

End VectorClass.

Module VectorFunctions.

Definition div (vector : ref) (divisor : float) : M ref :=
  if (negb (divisor =? 0) && isFinite divisor)%bool then
    let inverse := 1 / divisor in
    let* a := get_x vector in
    let* b := get_y vector in
    let* c := get_z vector in
    new_Vector (a * inverse) (b * inverse) (c * inverse)
  else
    let* a := get_x vector in
    let* b := get_y vector in
    let* c := get_z vector in
    new_Vector a b c.

Definition normalize (vector : ref) : M ref :=
  let* a := get_x vector in
  let* b := get_y vector in
  let* c := get_z vector in
  div vector (Math.hypot a b c).

End VectorFunctions.

End Binary64.
(** * Reasoning about runs *)

(** ** Real-number tests *)

Lemma Rltb_true a b : a < b -> Rltb a b = true.
Proof. intros H. unfold Rltb. destruct (Rlt_dec a b); [reflexivity | contradiction]. Qed.

Lemma Rltb_false a b : ~ a < b -> Rltb a b = false.
Proof. intros H. unfold Rltb. destruct (Rlt_dec a b); [contradiction | reflexivity]. Qed.

Lemma Reqb_true a b : a = b -> Reqb a b = true.
Proof. intros H. unfold Reqb. destruct (Req_dec_T a b); [reflexivity | contradiction]. Qed.

Lemma Reqb_false a b : a <> b -> Reqb a b = false.
Proof. intros H. unfold Reqb. destruct (Req_dec_T a b); [contradiction | reflexivity]. Qed.

Lemma Reqb_spec a b : Reqb a b = true <-> a = b.
Proof. unfold Reqb. destruct (Req_dec_T a b); split; intros; try assumption; try reflexivity; try discriminate; contradiction. Qed.

Lemma Rleb_true a b : a <= b -> Rleb a b = true.
Proof. intros H. unfold Rleb. destruct (Rle_dec a b); [reflexivity | contradiction]. Qed.

Lemma Rleb_false a b : ~ a <= b -> Rleb a b = false.
Proof. intros H. unfold Rleb. destruct (Rle_dec a b); [contradiction | reflexivity]. Qed.

(** ** The monad *)

Lemma bind_ret {A B : Type} (a : A) (k : A -> M B) (h : heap) :
  bind (ret a) k h = k a h.
Proof. reflexivity. Qed.

Lemma bind_assoc {A B C : Type} (m : M A) (f : A -> M B) (g : B -> M C) (h : heap) :
  bind (bind m f) g h = bind m (fun a => bind (f a) g) h.
Proof. unfold bind. destruct (m h) as [[a h']|]; reflexivity. Qed.

Lemma bind_run {A B : Type} (m : M A) (k : A -> M B) (h h' : heap) (a : A) :
  m h = Some (a, h') -> bind m k h = k a h'.
Proof. intros H. unfold bind. rewrite H. reflexivity. Qed.

(** ** Field access *)

Section Fields.
Variables (h : heap) (r : ref) (v : Vector).
Hypothesis Hr : h !! r = Some v.

Lemma get_x_run : get_x r h = Some (x v, h).
Proof. unfold get_x. rewrite Hr. reflexivity. Qed.
Lemma get_y_run : get_y r h = Some (y v, h).
Proof. unfold get_y. rewrite Hr. reflexivity. Qed.
Lemma get_z_run : get_z r h = Some (z v, h).
Proof. unfold get_z. rewrite Hr. reflexivity. Qed.

Lemma set_x_run n : set_x r n h = Some (tt, <[r := mkVector n (y v) (z v)]> h).
Proof. unfold set_x. rewrite Hr. reflexivity. Qed.
Lemma set_y_run n : set_y r n h = Some (tt, <[r := mkVector (x v) n (z v)]> h).
Proof. unfold set_y. rewrite Hr. reflexivity. Qed.
Lemma set_z_run n : set_z r n h = Some (tt, <[r := mkVector (x v) (y v) n]> h).
Proof. unfold set_z. rewrite Hr. reflexivity. Qed.
End Fields.

Lemma new_Vector_run (h : heap) (a b c : number) :
  new_Vector a b c h = Some (length h, h ++ [mkVector a b c]).
Proof. reflexivity. Qed.

(** ** Heap lookups *)

Lemma lookup_new (h : heap) (v : Vector) : (h ++ [v]) !! length h = Some v.
Proof. apply list_lookup_middle. reflexivity. Qed.

Lemma lookup_old (h : heap) (l : list Vector) (r : ref) (v : Vector) :
  h !! r = Some v -> (h ++ l) !! r = Some v.
Proof. apply lookup_app_l_Some. Qed.

Lemma insert_new (h : heap) (v w : Vector) :
  <[length h := w]> (h ++ [v]) = h ++ [w].
Proof.
  replace (length h) with (length h + 0)%nat by lia.
  rewrite insert_app_r. reflexivity.
Qed.

(** Proves [H !! r = Some ?v] for a heap [H] built by updates and
    allocations over heaps with known contents. *)
Ltac heap_len :=
  rewrite ?length_insert, ?length_app; simpl;
  repeat match goal with
         | H : _ !! _ = Some _ |- _ => apply lookup_lt_Some in H
         end; lia.

Ltac heap_lookup :=
  first
    [ eassumption
    | apply lookup_new
    | apply list_lookup_insert_eq; heap_len
    | rewrite list_lookup_insert_ne by (first [assumption | congruence | heap_len]);
      heap_lookup
    | apply lookup_old; heap_lookup ].

Create HintDb run discriminated.

#[global] Hint Extern 1 (get_x _ _ = Some _) => eapply get_x_run; heap_lookup : run.
#[global] Hint Extern 1 (get_y _ _ = Some _) => eapply get_y_run; heap_lookup : run.
#[global] Hint Extern 1 (get_z _ _ = Some _) => eapply get_z_run; heap_lookup : run.
#[global] Hint Extern 1 (set_x _ _ _ = Some _) => eapply set_x_run; heap_lookup : run.
#[global] Hint Extern 1 (set_y _ _ _ = Some _) => eapply set_y_run; heap_lookup : run.
#[global] Hint Extern 1 (set_z _ _ _ = Some _) => eapply set_z_run; heap_lookup : run.
#[global] Hint Extern 1 (new_Vector _ _ _ _ = Some _) => apply new_Vector_run : run.

(** One step of a run: the first action of a sequence is performed. *)
Ltac run_step :=
  lazymatch goal with
  | |- bind (bind _ _) _ _ = _ => rewrite bind_assoc
  | |- bind (ret _) _ _ = _ => rewrite bind_ret
  | |- bind ?m _ ?h = _ =>
      erewrite (bind_run m) by (solve [eauto with run nocore]); cbn [x y z]
  end.

Ltac run :=
  repeat run_step;
  rewrite ?new_Vector_run, ?list_insert_insert_eq, ?insert_new; cbn [x y z].

(** ** Runs of the methods of the class

    Each lemma gives the result and the final heap of a call whose
    receiver and arguments name objects of the heap.  The receiver and an
    argument may be the same object. *)

Lemma Vector_eta (v : Vector) : mkVector (x v) (y v) (z v) = v.
Proof. destruct v; reflexivity. Qed.

Section ClassRuns.
Import VectorClass.
Variables (h : heap) (this : ref) (v : Vector).
Hypothesis Hthis : h !! this = Some v.

Lemma Vector_add_number_run (n : number) (oy oz : option number) :
  add this (IsNumber n) oy oz h =
  Some (this, <[this := mkVector (x v + n) (y v + or0 oy) (z v + or0 oz)]> h).
Proof. unfold add. run. reflexivity. Qed.

Lemma Vector_sub_number_run (n : number) (oy oz : option number) :
  sub this (IsNumber n) oy oz h =
  Some (this, <[this := mkVector (x v - n) (y v - or0 oy) (z v - or0 oz)]> h).
Proof. unfold sub. run. reflexivity. Qed.

Lemma Vector_mult_run (factor : number) :
  isFinite factor = true ->
  mult this factor h =
  Some (this, <[this := mkVector (x v * factor) (y v * factor) (z v * factor)]> h).
Proof. intros Hf. unfold mult. rewrite Hf. cbn [negb]. run. reflexivity. Qed.

Lemma Vector_mult_skip (factor : number) :
  isFinite factor = false -> mult this factor h = Some (this, h).
Proof. intros Hf. unfold mult. rewrite Hf. reflexivity. Qed.

Lemma Vector_div_run (divisor : number) :
  isFinite divisor = true -> (divisor ==? 0)%J = false ->
  div this divisor h =
  Some (this, <[this := mkVector (x v / divisor) (y v / divisor) (z v / divisor)]> h).
Proof. intros Hf Hz. unfold div. rewrite Hf, Hz. cbn [negb orb]. run. reflexivity. Qed.

Lemma Vector_div_skip (divisor : number) :
  (negb (isFinite divisor) || (divisor ==? 0)%J)%bool = true ->
  div this divisor h = Some (this, h).
Proof. intros Hf. unfold div. rewrite Hf. reflexivity. Qed.

Lemma Vector_set_number_run (n : number) (oy oz : option number) :
  set this (IsNumber n) oy oz h = Some (this, <[this := mkVector n n n]> h).
Proof. unfold set. run. reflexivity. Qed.

Lemma Vector_copy_run : copy this h = Some (length h, h ++ [v]).
Proof. unfold copy. run. rewrite Vector_eta. reflexivity. Qed.

Lemma Vector_magSq_run :
  magSq this h = Some ((x v * x v + y v * y v + z v * z v)%J, h).
Proof. unfold magSq. run. reflexivity. Qed.

Lemma Vector_mag_run : mag this h = Some (hypot3 v, h).
Proof. unfold mag. run. reflexivity. Qed.

Lemma Vector_toArray_run : toArray this h = Some ([x v; y v; z v], h).
Proof. unfold toArray. run. reflexivity. Qed.

Lemma Vector_mult_fields_run (factor : number) :
  mult this factor h = Some (this, <[this := mult_fields v factor]> h).
Proof.
  unfold mult_fields. destruct (isFinite factor) eqn:Hf.
  - apply Vector_mult_run, Hf.
  - rewrite list_insert_id by exact Hthis. apply Vector_mult_skip, Hf.
Qed.

Lemma Vector_div_fields_run (divisor : number) :
  div this divisor h = Some (this, <[this := div_fields v divisor]> h).
Proof.
  unfold div_fields.
  destruct (negb (isFinite divisor) || (divisor ==? 0)%J)%bool eqn:Hd.
  - rewrite list_insert_id by exact Hthis. apply Vector_div_skip, Hd.
  - apply orb_false_iff in Hd as [Hf Hz]. apply negb_false_iff in Hf.
    apply Vector_div_run; assumption.
Qed.

End ClassRuns.

(** Methods with a vector argument [o], which may be [this]. *)

Section ClassRunsArgument.
Import VectorClass.
Variables (h : heap) (this : ref) (v : Vector).
Hypothesis Hthis : h !! this = Some v.
Variables (o : ref) (w : Vector).
Hypothesis Ho : h !! o = Some w.

Ltac alias :=
  destruct (decide (this = o)) as [Heq | Hne];
  [ subst o; assert (w = v) by congruence; subst w | ].

Lemma Vector_add_vector_run (oy oz : option number) :
  add this (IsVector o) oy oz h =
  Some (this, <[this := mkVector (x v + x w) (y v + y w) (z v + z w)]> h).
Proof. unfold add. alias; run; reflexivity. Qed.

Lemma Vector_sub_vector_run (oy oz : option number) :
  sub this (IsVector o) oy oz h =
  Some (this, <[this := mkVector (x v - x w) (y v - y w) (z v - z w)]> h).
Proof. unfold sub. alias; run; reflexivity. Qed.

Lemma Vector_set_vector_run (oy oz : option number) :
  set this (IsVector o) oy oz h = Some (this, <[this := w]> h).
Proof. unfold set. alias; run; rewrite Vector_eta; reflexivity. Qed.

Lemma Vector_max_run :
  max this o h = Some (if (hypot3 v >? hypot3 w)%J then this else o, h).
Proof.
  unfold max. rewrite (bind_run _ _ _ _ _ (Vector_mag_run h this v Hthis)).
  rewrite (bind_run _ _ _ _ _ (Vector_mag_run h o w Ho)).
  destruct (hypot3 v >? hypot3 w)%J; reflexivity.
Qed.

Lemma Vector_min_run :
  min this o h = Some (if (hypot3 v <? hypot3 w)%J then this else o, h).
Proof.
  unfold min. rewrite (bind_run _ _ _ _ _ (Vector_mag_run h this v Hthis)).
  rewrite (bind_run _ _ _ _ _ (Vector_mag_run h o w Ho)).
  destruct (hypot3 v <? hypot3 w)%J; reflexivity.
Qed.

Lemma Vector_equals_run :
  equals this o h =
  Some (((x v ==? x w)%J && (y v ==? y w)%J && (z v ==? z w)%J)%bool, h).
Proof.
  unfold equals. run.
  destruct (x v ==? x w)%J; cbn [negb andb]; [| reflexivity]. run.
  destruct (y v ==? y w)%J; cbn [negb andb]; [| reflexivity]. run.
  reflexivity.
Qed.

Lemma Vector_dist_run :
  dist this o h =
  Some (Math.hypot (x v - x w) (y v - y w) (z v - z w), h).
Proof. unfold dist. run. reflexivity. Qed.

Lemma Vector_distSq_run :
  distSq this o h =
  Some (pow2 (Math.hypot (x v - x w) (y v - y w) (z v - z w)), h).
Proof. unfold distSq. run. reflexivity. Qed.

Lemma Vector_cross_run :
  cross this o h =
  Some (length h,
        h ++ [mkVector (y v * z w - z v * y w)
                       (z v * x w - x v * z w)
                       (x v * y w - y v * x w)]).
Proof. unfold cross. run. reflexivity. Qed.

Lemma Vector_dot_run :
  dot this o h = Some ((x v * x w + y v * y w + z v * z w)%J, h).
Proof. unfold dot. run. reflexivity. Qed.

Lemma Vector_lerp_run (alpha : number) :
  lerp this o alpha h =
  Some (this,
        let a := Math.min (Math.max alpha 0) 1 in
        <[this := mkVector (x v + (x w - x v) * a)
                           (y v + (y w - y v) * a)
                           (z v + (z w - z v) * a)]> h).
Proof. unfold lerp. cbv zeta. alias; run; reflexivity. Qed.

Lemma Vector_angleBetween_run :
  angleBetween this o h =
  Some (let magMult := (hypot3 v * hypot3 w)%J in
        if (magMult ==? 0)%J then 0%J
        else Math.acos
               (Math.max
                  (Math.min ((x v * x w + y v * y w + z v * z w) / magMult) 1)
                  (- (1))),
        h).
Proof.
  unfold angleBetween. rewrite (bind_run _ _ _ _ _ (Vector_mag_run h this v Hthis)).
  rewrite (bind_run _ _ _ _ _ (Vector_mag_run h o w Ho)). cbv zeta.
  destruct (hypot3 v * hypot3 w ==? 0)%J; [reflexivity |].
  rewrite (bind_run _ _ _ _ _ Vector_dot_run). reflexivity.
Qed.

End ClassRunsArgument.

(** Methods built on [div] and [mult], and the rotations. *)

Section ClassRunsRescale.
Import VectorClass.
Variables (h : heap) (this : ref) (v : Vector).
Hypothesis Hthis : h !! this = Some v.

(** [this.div(d).mult(m)], the rescaling step shared by [setMag],
    [maxMag], [minMag] and [constrainMag]. *)
Lemma Vector_div_mult_run (d m : number) :
  (let* r := div this d in mult r m) h =
  Some (this, <[this := mult_fields (div_fields v d) m]> h).
Proof.
  rewrite (bind_run _ _ _ _ _ (Vector_div_fields_run h this v Hthis d)).
  rewrite (Vector_mult_fields_run _ this (div_fields v d)) by heap_lookup.
  rewrite list_insert_insert_eq. reflexivity.
Qed.

Lemma Vector_normalize_run :
  normalize this h =
  Some (this, <[this := normalize_fields v]> h).
Proof.
  unfold normalize, normalize_fields. run. fold (hypot3 v).
  destruct (hypot3 v ==? 0)%J.
  - apply Vector_set_number_run with (v := v). exact Hthis.
  - apply Vector_div_fields_run. exact Hthis.
Qed.

Lemma Vector_setMag_run (m : number) :
  setMag this m h =
  Some (this, <[this := mult_fields (div_fields v (hypot3 v)) m]> h).
Proof.
  unfold setMag.
  rewrite (bind_run _ _ _ _ _ (Vector_mag_run h this v Hthis)).
  apply Vector_div_mult_run.
Qed.

Lemma Vector_maxMag_run (m : number) :
  maxMag this m h =
  Some (this,
        <[this := if (hypot3 v >? m)%J
                  then mult_fields (div_fields v (hypot3 v)) m
                  else v]> h).
Proof.
  unfold maxMag. run. fold (hypot3 v).
  destruct (hypot3 v >? m)%J.
  - apply Vector_div_mult_run.
  - rewrite list_insert_id by exact Hthis. reflexivity.
Qed.

Lemma Vector_minMag_run (m : number) :
  minMag this m h =
  Some (this,
        <[this := if (hypot3 v <? m)%J
                  then mult_fields (div_fields v (hypot3 v)) m
                  else v]> h).
Proof.
  unfold minMag. run. fold (hypot3 v).
  destruct (hypot3 v <? m)%J.
  - apply Vector_div_mult_run.
  - rewrite list_insert_id by exact Hthis. reflexivity.
Qed.

Lemma Vector_constrainMag_run (lo hi : number) :
  constrainMag this lo hi h =
  Some (this,
        <[this := if (hypot3 v <? lo)%J
                  then mult_fields (div_fields v (hypot3 v)) lo
                  else if (hypot3 v >? hi)%J
                       then mult_fields (div_fields v (hypot3 v)) hi
                       else v]> h).
Proof.
  unfold constrainMag. run. fold (hypot3 v).
  destruct (hypot3 v <? lo)%J; [apply Vector_div_mult_run |].
  destruct (hypot3 v >? hi)%J; [apply Vector_div_mult_run |].
  rewrite list_insert_id by exact Hthis. reflexivity.
Qed.

Lemma Vector_rotate_run (angle : number) :
  rotate this angle h =
  Some (this,
        <[this := mkVector
                    ((x v * Math.cos angle + y v * - Math.sin angle) || 0)
                    ((x v * Math.sin angle + y v * Math.cos angle) || 0)
                    (z v)]> h).
Proof. unfold rotate. cbv zeta. run. reflexivity. Qed.

Lemma Vector_rotateX_run (angle : number) :
  rotateX this angle h =
  Some (this,
        <[this := mkVector
                    (x v)
                    ((y v * Math.cos angle + z v * - Math.sin angle) || 0)
                    ((y v * Math.sin angle + z v * Math.cos angle) || 0)]> h).
Proof. unfold rotateX. cbv zeta. run. reflexivity. Qed.

Lemma Vector_rotateY_run (angle : number) :
  rotateY this angle h =
  Some (this,
        <[this := mkVector
                    ((x v * Math.cos angle + z v * Math.sin angle) || 0)
                    (y v)
                    ((x v * - Math.sin angle + z v * Math.cos angle) || 0)]> h).
Proof. unfold rotateY. cbv zeta. run. reflexivity. Qed.

End ClassRunsRescale.

(** [changeOfBasis]: a basis vector that is left out is allocated first. *)

Lemma Vector_changeOfBasis_default (this : ref) (ovi ovj ovk : option ref) (h : heap) :
  VectorClass.changeOfBasis this ovi ovj ovk h =
  let i := basis_or ovi (mkVector 1 0 0) h in
  let j := basis_or ovj (mkVector 0 1 0) i.2 in
  let k := basis_or ovk (mkVector 0 0 1) j.2 in
  VectorClass.changeOfBasis this (Some i.1) (Some j.1) (Some k.1) k.2.
Proof. destruct ovi, ovj, ovk; reflexivity. Qed.

Section ClassRunsBasis.
Import VectorClass.
Variables (h : heap) (this : ref) (v : Vector).
Hypothesis Hthis : h !! this = Some v.
Variables (vi vj vk : ref) (i j k : Vector).
Hypothesis Hi : h !! vi = Some i.
Hypothesis Hj : h !! vj = Some j.
Hypothesis Hk : h !! vk = Some k.

Lemma Vector_changeOfBasis_run :
  changeOfBasis this (Some vi) (Some vj) (Some vk) h =
  Some (this,
        <[this := mkVector (x v * x i + y v * x j + z v * x k)
                           (x v * y i + y v * y j + z v * y k)
                           (x v * z i + y v * z j + z v * z k)]> h).
Proof.
  unfold changeOfBasis.
  destruct (decide (this = vi)) as [Ei | Ni];
    [subst vi; assert (i = v) by congruence; subst i |];
    (destruct (decide (this = vj)) as [Ej | Nj];
     [subst vj; assert (j = v) by congruence; subst j |]);
    (destruct (decide (this = vk)) as [Ek | Nk];
     [subst vk; assert (k = v) by congruence; subst k |]);
    run; reflexivity.
Qed.

End ClassRunsBasis.

(** ** Runs of the free functions *)

Section FunctionRuns.
Import VectorFunctions.
Variables (h : heap) (vector : ref) (v : Vector).
Hypothesis Hvector : h !! vector = Some v.

Lemma add_number_run (n : number) (oy oz : option number) :
  add vector (IsNumber n) oy oz h =
  Some (length h, h ++ [mkVector (x v + n) (y v + or0 oy) (z v + or0 oz)]).
Proof. unfold add. run. reflexivity. Qed.

Lemma sub_number_run (n : number) (oy oz : option number) :
  sub vector (IsNumber n) oy oz h =
  Some (length h, h ++ [mkVector (x v - n) (y v - or0 oy) (z v - or0 oz)]).
Proof. unfold sub. run. reflexivity. Qed.

Lemma mult_run (factor : number) :
  mult vector factor h = Some (length h, h ++ [mult_fields v factor]).
Proof.
  unfold mult, mult_fields. destruct (isFinite factor); run;
    rewrite ?Vector_eta; reflexivity.
Qed.

Lemma div_run (divisor : number) :
  div vector divisor h = Some (length h, h ++ [inverse_fields v divisor]).
Proof.
  unfold div, inverse_fields.
  destruct ((divisor !==? 0)%J && isFinite divisor)%bool; cbv zeta; run;
    rewrite ?Vector_eta; reflexivity.
Qed.

Lemma normalize_run :
  normalize vector h = Some (length h, h ++ [inverse_fields v (hypot3 v)]).
Proof. unfold normalize. run. apply div_run. Qed.

Lemma setMag_run (m : number) :
  setMag vector m h =
  Some (length h, h ++ [mult_fields (inverse_fields v (hypot3 v)) m]).
Proof.
  unfold setMag. run. rewrite (bind_run _ _ _ _ _ (div_run _)).
  rewrite (Vector_mult_fields_run _ _ (inverse_fields v (hypot3 v)))
    by heap_lookup.
  rewrite insert_new. reflexivity.
Qed.

Lemma toArray_run : toArray vector h = Some ([x v; y v; z v], h).
Proof. unfold toArray. run. reflexivity. Qed.

Lemma rotate_run (angle : number) :
  rotate vector angle h =
  Some (length h,
        h ++ [mkVector (x v * Math.cos angle + y v * - Math.sin angle)
                       (x v * Math.sin angle + y v * Math.cos angle)
                       (z v)]).
Proof. unfold rotate. cbv zeta. run. reflexivity. Qed.

Lemma rotateX_run (angle : number) :
  rotateX vector angle h =
  Some (length h,
        h ++ [mkVector (x v)
                       (y v * Math.cos angle + z v * - Math.sin angle)
                       (y v * Math.sin angle + z v * Math.cos angle)]).
Proof. unfold rotateX. cbv zeta. run. reflexivity. Qed.

Lemma rotateY_run (angle : number) :
  rotateY vector angle h =
  Some (length h,
        h ++ [mkVector (x v * Math.cos angle + z v * Math.sin angle)
                       (y v)
                       (x v * - Math.sin angle + z v * Math.cos angle)]).
Proof. unfold rotateY. cbv zeta. run. reflexivity. Qed.

(** *** Functions of two vectors *)

Variables (otherVector : ref) (w : Vector).
Hypothesis Hother : h !! otherVector = Some w.

Lemma add_vector_run (oy oz : option number) :
  add vector (IsVector otherVector) oy oz h =
  Some (length h, h ++ [mkVector (x v + x w) (y v + y w) (z v + z w)]).
Proof. unfold add. run. reflexivity. Qed.

Lemma sub_vector_run (oy oz : option number) :
  sub vector (IsVector otherVector) oy oz h =
  Some (length h, h ++ [mkVector (x v - x w) (y v - y w) (z v - z w)]).
Proof. unfold sub. run. reflexivity. Qed.

Lemma max_run :
  max vector otherVector h =
  Some (length h, h ++ [if (hypot3 v >? hypot3 w)%J then v else w]).
Proof.
  unfold max.
  rewrite (bind_run _ _ _ _ _ (Vector_mag_run h vector v Hvector)).
  rewrite (bind_run _ _ _ _ _ (Vector_mag_run h otherVector w Hother)).
  destruct (hypot3 v >? hypot3 w)%J; apply Vector_copy_run; assumption.
Qed.

Lemma min_run :
  min vector otherVector h =
  Some (length h, h ++ [if (hypot3 v <? hypot3 w)%J then v else w]).
Proof.
  unfold min.
  rewrite (bind_run _ _ _ _ _ (Vector_mag_run h vector v Hvector)).
  rewrite (bind_run _ _ _ _ _ (Vector_mag_run h otherVector w Hother)).
  destruct (hypot3 v <? hypot3 w)%J; apply Vector_copy_run; assumption.
Qed.

Lemma equals_run :
  equals vector otherVector h =
  Some (((x v ==? x w)%J && (y v ==? y w)%J && (z v ==? z w)%J)%bool, h).
Proof.
  unfold equals. run.
  destruct (x v ==? x w)%J; cbn [negb andb]; [| reflexivity]. run.
  destruct (y v ==? y w)%J; cbn [negb andb]; [| reflexivity]. run.
  reflexivity.
Qed.

Lemma dist_run :
  dist vector otherVector h =
  Some (Math.hypot (x v - x w) (y v - y w) (z v - z w), h).
Proof. unfold dist. run. reflexivity. Qed.

Lemma distSq_run :
  distSq vector otherVector h =
  Some (pow2 (Math.hypot (x v - x w) (y v - y w) (z v - z w)), h).
Proof. unfold distSq. run. reflexivity. Qed.

Lemma cross_run :
  cross vector otherVector h =
  Some (length h,
        h ++ [mkVector (y v * z w - z v * y w)
                       (z v * x w - x v * z w)
                       (x v * y w - y v * x w)]).
Proof. unfold cross. run. reflexivity. Qed.

Lemma dot_run :
  dot vector otherVector h =
  Some ((x v * x w + y v * y w + z v * z w)%J, h).
Proof. unfold dot. run. reflexivity. Qed.

Lemma lerp_run (alpha : number) :
  lerp vector otherVector alpha h =
  Some (length h,
        h ++ [mkVector (x v + (x w - x v) * alpha)
                       (y v + (y w - y v) * alpha)
                       (z v + (z w - z v) * alpha)]).
Proof. unfold lerp. run. reflexivity. Qed.

Lemma angleBetween_run :
  angleBetween vector otherVector h =
  Some (let magMult := (hypot3 v * hypot3 w)%J in
        if (magMult !==? 0)%J
        then Some (Math.acos
                     (Math.max
                        (Math.min
                           ((x v * x w + y v * y w + z v * z w) / magMult) 1)
                        (- (1))))
        else None,
        h).
Proof.
  unfold angleBetween.
  rewrite (bind_run _ _ _ _ _ (Vector_mag_run h vector v Hvector)).
  rewrite (bind_run _ _ _ _ _ (Vector_mag_run h otherVector w Hother)).
  cbv zeta. destruct (hypot3 v * hypot3 w !==? 0)%J; [| reflexivity].
  rewrite (bind_run _ _ _ _ _
             (Vector_dot_run h vector v Hvector otherVector w Hother)).
  reflexivity.
Qed.

End FunctionRuns.

Lemma changeOfBasis_default (vector : ref) (ovi ovj ovk : option ref) (h : heap) :
  VectorFunctions.changeOfBasis vector ovi ovj ovk h =
  let i := basis_or ovi (mkVector 1 0 0) h in
  let j := basis_or ovj (mkVector 0 1 0) i.2 in
  let k := basis_or ovk (mkVector 0 0 1) j.2 in
  VectorFunctions.changeOfBasis vector (Some i.1) (Some j.1) (Some k.1) k.2.
Proof. destruct ovi, ovj, ovk; reflexivity. Qed.

Section FunctionRunsBasis.
Import VectorFunctions.
Variables (h : heap) (vector : ref) (v : Vector).
Hypothesis Hvector : h !! vector = Some v.
Variables (vi vj vk : ref) (i j k : Vector).
Hypothesis Hi : h !! vi = Some i.
Hypothesis Hj : h !! vj = Some j.
Hypothesis Hk : h !! vk = Some k.

Lemma changeOfBasis_run :
  changeOfBasis vector (Some vi) (Some vj) (Some vk) h =
  Some (length h,
        h ++ [mkVector (x v * x i + y v * x j + z v * x k)
                       (x v * y i + y v * y j + z v * y k)
                       (x v * z i + y v * z j + z v * z k)]).
Proof. unfold changeOfBasis. run. reflexivity. Qed.

End FunctionRunsBasis.

(** [scalarProyection] allocates three objects: the two difference
    vectors, the first of which it then normalizes and scales in place, and
    the result. *)
Section FunctionRunsProyection.
Import VectorFunctions.
Variables (h : heap) (vertex vector otherVector : ref) (p v w : Vector).
Hypothesis Hvertex : h !! vertex = Some p.
Hypothesis Hvector : h !! vector = Some v.
Hypothesis Hother : h !! otherVector = Some w.

Lemma scalarProyection_run :
  scalarProyection vertex vector otherVector h =
  Some (S (S (length h)),
        h ++ [projected p v w; difference w p;
              mkVector (x p + x (projected p v w)) (y p + y (projected p v w))
                       (z p + z (projected p v w))]).
Proof.
  unfold scalarProyection.
  rewrite (bind_run _ _ _ _ _
             (sub_vector_run h vector v Hvector vertex p Hvertex None None)).
  fold (difference v p).
  erewrite (bind_run (sub otherVector _ _ _))
    by (eapply sub_vector_run; heap_lookup).
  fold (difference w p).
  erewrite (bind_run (VectorClass.normalize _))
    by (eapply Vector_normalize_run; heap_lookup).
  rewrite bind_assoc.
  erewrite (bind_run (VectorClass.dot _ _))
    by (eapply Vector_dot_run; heap_lookup).
  erewrite (bind_run (VectorClass.mult _ _))
    by (eapply Vector_mult_fields_run; heap_lookup).
  fold (normalize_fields (difference v p)).
  change (mult_fields _ _) with (projected p v w).
  erewrite add_vector_run by heap_lookup.
  rewrite list_insert_insert_eq, insert_app_l, insert_new
    by (rewrite length_app; simpl; lia).
  rewrite !length_app, <- !app_assoc. simpl.
  do 3 f_equal. lia.
Qed.

End FunctionRunsProyection.

(** * Facts about numbers *)

Lemma sum_squares_nonneg (a b c : R) : 0 <= a * a + b * b + c * c.
Proof. nra. Qed.

Lemma sum_squares_zero (a b c : R) :
  a * a + b * b + c * c = 0 -> a = 0 /\ b = 0 /\ c = 0.
Proof. intros H. repeat split; nra. Qed.

Lemma hypot_finite (a b c : R) :
  Math.hypot (Fin a) (Fin b) (Fin c) = Fin (sqrt (a * a + b * b + c * c)).
Proof. reflexivity. Qed.

(** A magnitude is [0] only for the vector whose fields are all [0]. *)
Lemma hypot3_zero (v : Vector) : hypot3 v = Fin 0 -> v = mkVector 0 0 0.
Proof.
  destruct v as [[a| | |] [b| | |] [c| | |]]; unfold hypot3; cbn;
    try discriminate.
  intros [= H]. apply sqrt_eq_0 in H; [| apply sum_squares_nonneg].
  apply sum_squares_zero in H as (-> & -> & ->). reflexivity.
Qed.

Lemma neq_true (a b : number) : (a ==? b)%J = true -> a = b /\ a <> NaN.
Proof.
  destruct a, b; cbn; try discriminate; intros H; split; try reflexivity;
    try discriminate.
  apply Reqb_spec in H. subst. reflexivity.
Qed.

Lemma nlt_irrefl (a : number) : (a <? a)%J = false.
Proof. destruct a; cbn; try reflexivity. apply Rltb_false. lra. Qed.

Lemma mul_inf_zero (b : bool) : mul_inf 0 b = NaN.
Proof. unfold mul_inf. rewrite !Rltb_false by lra. reflexivity. Qed.

(** Scaling the zero vector leaves the zero vector. *)
Lemma mult_fields_zero (m : number) :
  mult_fields (mkVector 0 0 0) m = mkVector 0 0 0.
Proof.
  unfold mult_fields. destruct m as [r| | |]; cbn; try reflexivity.
  rewrite Rmult_0_l. reflexivity.
Qed.

Lemma div_fields_zero_divisor (v : Vector) : div_fields v 0 = v.
Proof. unfold div_fields. cbn. rewrite Reqb_true by reflexivity. reflexivity. Qed.

Lemma hypot3_of_zero : hypot3 (mkVector 0 0 0) = Fin 0.
Proof.
  unfold hypot3. cbn. f_equal.
  replace (0 * 0 + 0 * 0 + 0 * 0) with 0 by lra. apply sqrt_0.
Qed.

Lemma sqrt_sum_squares_pos (a b c : R) :
  a <> 0 \/ b <> 0 \/ c <> 0 -> 0 < sqrt (a * a + b * b + c * c).
Proof. intros H. apply sqrt_lt_R0. destruct H as [H | [H | H]]; nra. Qed.

(** Dividing a finite vector by its magnitude gives magnitude 1. *)
Lemma unit_sum_squares (a b c : R) :
  a <> 0 \/ b <> 0 \/ c <> 0 ->
  let m := sqrt (a * a + b * b + c * c) in
  sqrt (a / m * (a / m) + b / m * (b / m) + c / m * (c / m)) = 1.
Proof.
  intros H m. pose proof (sqrt_sum_squares_pos a b c H) as Hm. fold m in Hm.
  assert (Hmm : m * m = a * a + b * b + c * c).
  { apply sqrt_sqrt, sum_squares_nonneg. }
  replace (a / m * (a / m) + b / m * (b / m) + c / m * (c / m))
    with ((a * a + b * b + c * c) / (m * m)) by (field; lra).
  rewrite <- Hmm. replace (m * m / (m * m)) with 1 by (field; lra).
  apply sqrt_1.
Qed.

Lemma mul_inf_pos (r : R) (b : bool) : 0 < r -> mul_inf r b = signed_inf b.
Proof. intros H. unfold mul_inf. rewrite Rltb_true by exact H. reflexivity. Qed.

Lemma mul_inf_neg (r : R) (b : bool) : r < 0 -> mul_inf r b = signed_inf (negb b).
Proof.
  intros H. unfold mul_inf. rewrite Rltb_false by lra.
  rewrite Rltb_true by exact H. reflexivity.
Qed.

Lemma mul_inf_null (r : R) (b : bool) : r = 0 -> mul_inf r b = NaN.
Proof. intros ->. apply mul_inf_zero. Qed.

(** Evaluation of arithmetic on given numbers. *)
Ltac num_simp :=
  repeat (cbn;
          match goal with
          | |- context [mul_inf ?r ?b] =>
              first [ rewrite (mul_inf_pos r b) by lra
                    | rewrite (mul_inf_neg r b) by lra
                    | rewrite (mul_inf_null r b) by lra ]
          | |- context [Reqb ?r ?s] =>
              first [ rewrite (Reqb_true r s) by lra
                    | rewrite (Reqb_false r s) by lra ]
          | |- context [Rltb ?r ?s] =>
              first [ rewrite (Rltb_true r s) by lra
                    | rewrite (Rltb_false r s) by lra ]
          | |- context [Rleb ?r ?s] =>
              first [ rewrite (Rleb_true r s) by lra
                    | rewrite (Rleb_false r s) by lra ]
          end);
  cbn.

Ltac num_eq := repeat (f_equal; try lra).

(** [Math.max(Math.min(q, 1), -1)] lies in [-1, 1] unless [q] is NaN. *)
Lemma clamp_range (q : number) :
  let arg := Math.max (Math.min q 1) (- (1)) in
  (q = NaN /\ arg = NaN) \/ (exists r, arg = Fin r /\ -1 <= r <= 1).
Proof.
  destruct q as [r| | |]; cbn.
  - right. destruct (Rlt_dec 1 r) as [H1 | H1].
    + rewrite (Rltb_true 1 r) by exact H1. cbn. rewrite Rltb_false by lra.
      exists 1. split; [reflexivity | lra].
    + rewrite (Rltb_false 1 r) by exact H1. cbn.
      destruct (Rlt_dec r (- (1))) as [H2 | H2].
      * rewrite Rltb_true by exact H2. exists (- (1)). split; [reflexivity | lra].
      * rewrite Rltb_false by exact H2. exists r. split; [reflexivity | lra].
  - right. rewrite Rltb_false by lra. exists 1. split; [reflexivity | lra].
  - right. exists (- (1)). split; [reflexivity | lra].
  - left. split; reflexivity.
Qed.

Lemma StaticFnVector_add_agrees (vector : ref) (x : VectorOrNumber) (y z : number) :
  StaticFnVector.add vector x y z = VectorFunctions.add vector x (Some y) (Some z).
Proof. destruct x; reflexivity. Qed.

(** ** Calls *)

Lemma returning_run {A : Type} (f : A -> value) (m : M A) (h h' : heap) (a : A) :
  m h = Some (a, h') -> returning f m h = Some (f a, h').
Proof. intros H. unfold returning. rewrite (bind_run _ _ _ _ _ H). reflexivity. Qed.

Lemma observe_object (h : heap) (r : ref) (v : Vector) :
  h !! r = Some v -> observe (Some (Object r, h)) = Some (Fields v).
Proof. intros H. simpl. rewrite H. reflexivity. Qed.

Lemma fromAngle_run (angle : number) (h : heap) :
  VectorFunctions.fromAngle angle h =
  Some (length h, h ++ [mkVector (Math.cos angle) (Math.sin angle) 0]).
Proof. reflexivity. Qed.

Lemma fromAngles_run (polar azimuth : number) (h : heap) :
  VectorFunctions.fromAngles polar azimuth h =
  Some (length h,
        h ++ [mkVector (Math.sin azimuth * Math.cos polar)
                       (Math.sin azimuth * Math.sin polar)
                       (Math.cos azimuth)]).
Proof. reflexivity. Qed.

Ltac heap_prefix :=
  rewrite <- ?app_assoc;
  first [ reflexivity | apply prefix_app_r; reflexivity ].

(** The arguments of a well-formed call name objects. *)
Ltac well_formed_args H :=
  unfold well_formed in H; simpl in H;
  repeat match type of H with
         | Forall _ (_ :: _) =>
             let Hx := fresh "Hr" in
             apply Forall_cons in H as [[? Hx] H]
         end;
  clear H.

(** ** The method [div] and the free function [div]

    The function multiplies by [1 / divisor]; in exact arithmetic that is
    the method's division. *)

Lemma mul_inf_inverse (r : R) (b : bool) : r <> 0 -> mul_inf (1 / r) b = mul_inf r b.
Proof.
  intros Hr. destruct (Rlt_dec 0 r) as [Hpos | Hneg].
  - assert (0 < 1 / r) by (apply Rdiv_lt_0_compat; lra).
    rewrite !mul_inf_pos by assumption. reflexivity.
  - assert (Hr' : r < 0) by lra.
    assert (1 / r < 0).
    { unfold Rdiv. rewrite Rmult_1_l. apply Rinv_lt_0_compat, Hr'. }
    rewrite !mul_inf_neg by assumption. reflexivity.
Qed.

Lemma times_inverse (a : number) (r : R) :
  r <> 0 -> (a * (1 / Fin r) = a / Fin r)%J.
Proof.
  intros Hr. destruct a as [s| | |]; cbn; rewrite ?Reqb_false by exact Hr; cbn.
  - f_equal. field. exact Hr.
  - apply mul_inf_inverse, Hr.
  - apply mul_inf_inverse, Hr.
  - reflexivity.
Qed.

Lemma inverse_fields_div_fields (v : Vector) (d : number) :
  inverse_fields v d = div_fields v d.
Proof.
  unfold inverse_fields, div_fields, nne.
  destruct d as [r| | |]; cbn [isFinite negb orb andb neq]; try reflexivity.
  destruct (Reqb r 0) eqn:Hr; cbn [negb andb]; [reflexivity |].
  assert (r <> 0).
  { intros ->. rewrite Reqb_true in Hr by reflexivity. discriminate. }
  rewrite !times_inverse by assumption. reflexivity.
Qed.

Lemma normalize_fields_inverse_fields (v : Vector) :
  normalize_fields v = inverse_fields v (hypot3 v).
Proof.
  rewrite inverse_fields_div_fields. unfold normalize_fields.
  destruct (hypot3 v ==? 0)%J eqn:Hz; [| reflexivity].
  apply neq_true in Hz as [Hz _].
  rewrite Hz, div_fields_zero_divisor. symmetry. apply hypot3_zero, Hz.
Qed.

(** An interpolation factor inside [0, 1] is its own clamping. *)
Lemma clamp_alpha (r : R) :
  0 <= r <= 1 -> Math.min (Math.max (Fin r) 0) 1 = Fin r.
Proof.
  intros Hr. cbn. rewrite (Rltb_false r 0) by lra. cbn.
  rewrite Rltb_false by lra. reflexivity.
Qed.

Lemma on_copy_run {A : Type} (f : A -> value) (meth : ref -> M A)
    (h h' : heap) (vector : ref) (v : Vector) (a : A) :
  h !! vector = Some v ->
  meth (length h) (h ++ [v]) = Some (a, h') ->
  (let* r := VectorClass.copy vector in returning f (meth r)) h = Some (f a, h').
Proof.
  intros Hv Hm.
  rewrite (bind_run _ _ _ _ _ (Vector_copy_run h vector v Hv)).
  apply returning_run, Hm.
Qed.

(** * The claims *)

(** ** C1: [maxMag], [minMag] and [constrainMag] on a zero vector *)

(** C1 (as the claim states it, refuted).  On the zero vector,
    [minMag(1)], [maxMag(-1)] and [constrainMag(1, 2)] each take the
    rescaling branch and leave the fields (0, 0, 0): no field becomes
    infinite or NaN. *)
Lemma C1_zero_vector_stays_finite :
  VectorClass.minMag 0%nat 1 [mkVector 0 0 0] = Some (0%nat, [mkVector 0 0 0]) /\
  VectorClass.maxMag 0%nat (- (1)) [mkVector 0 0 0] = Some (0%nat, [mkVector 0 0 0]) /\
  VectorClass.constrainMag 0%nat 1 2 [mkVector 0 0 0] = Some (0%nat, [mkVector 0 0 0]) /\
  (hypot3 (mkVector 0 0 0) <? 1)%J = true /\
  (hypot3 (mkVector 0 0 0) >? - (1))%J = true.
Proof.
  pose proof hypot3_of_zero as Hm.
  assert (Hlt : (hypot3 (mkVector 0 0 0) <? 1)%J = true).
  { rewrite Hm. cbn. apply Rltb_true. lra. }
  assert (Hgt : (hypot3 (mkVector 0 0 0) >? - (1))%J = true).
  { rewrite Hm. cbn. apply Rltb_true. lra. }
  repeat split; try assumption.
  - erewrite Vector_minMag_run by reflexivity.
    rewrite Hlt, Hm, div_fields_zero_divisor, mult_fields_zero. reflexivity.
  - erewrite Vector_maxMag_run by reflexivity.
    rewrite Hgt, Hm, div_fields_zero_divisor, mult_fields_zero. reflexivity.
  - erewrite Vector_constrainMag_run by reflexivity.
    rewrite Hlt, Hm, div_fields_zero_divisor, mult_fields_zero. reflexivity.
Qed.

(** C1 (amended).  For every vector of magnitude exactly 0 and every
    argument, [maxMag], [minMag] and [constrainMag] return the receiver and
    leave its fields (0, 0, 0), hence finite: where they rescale, the
    division goes through [div], whose guard skips a zero divisor. *)
Theorem C1_zero_magnitude_kept (h : heap) (this : ref) (v : Vector)
    (m lo hi : number) :
  h !! this = Some v ->
  hypot3 v = Fin 0 ->
  v = mkVector 0 0 0 /\
  VectorClass.div this (hypot3 v) h = Some (this, h) /\
  VectorClass.maxMag this m h = Some (this, h) /\
  VectorClass.minMag this m h = Some (this, h) /\
  VectorClass.constrainMag this lo hi h = Some (this, h).
Proof.
  intros Hthis Hm. pose proof (hypot3_zero v Hm) as Hv.
  assert (Hk : forall k, mult_fields (div_fields v (hypot3 v)) k = v).
  { intros k. rewrite Hm, div_fields_zero_divisor, Hv. apply mult_fields_zero. }
  split; [exact Hv |]. split; [| split; [| split]].
  - apply Vector_div_skip. rewrite Hm. cbn. rewrite Reqb_true by reflexivity. reflexivity.
  - rewrite (Vector_maxMag_run h this v Hthis), Hk.
    destruct (hypot3 v >? m)%J; rewrite list_insert_id by exact Hthis; reflexivity.
  - rewrite (Vector_minMag_run h this v Hthis), Hk.
    destruct (hypot3 v <? m)%J; rewrite list_insert_id by exact Hthis; reflexivity.
  - rewrite (Vector_constrainMag_run h this v Hthis), !Hk.
    destruct (hypot3 v <? lo)%J, (hypot3 v >? hi)%J;
      rewrite list_insert_id by exact Hthis; reflexivity.
Qed.

Lemma C1_zero_magnitude_kept_witness :
  [mkVector 0 0 0] !! 0%nat = Some (mkVector 0 0 0) /\
  hypot3 (mkVector 0 0 0) = Fin 0 /\
  VectorClass.minMag 0%nat 1 [mkVector 0 0 0] = Some (0%nat, [mkVector 0 0 0]).
Proof.
  split; [reflexivity |]. split; [exact hypot3_of_zero |].
  exact (proj1 (proj2 (proj2 (proj2
           (C1_zero_magnitude_kept [mkVector 0 0 0] 0%nat (mkVector 0 0 0)
              1 0 0 eq_refl hypot3_of_zero))))).
Defined.

(** ** C2: [set] *)

(** C2 (what the code does).  With a number as first argument, [set]
    writes that number into all three fields, whatever is passed for [y]
    and [z]; with a vector as first argument it copies that vector's
    fields.  In both cases it returns the receiver. *)
Theorem C2_set_fields (h : heap) (this : ref) (v : Vector)
    (n : number) (oy oz : option number) (o : ref) (w : Vector) :
  h !! this = Some v ->
  h !! o = Some w ->
  VectorClass.set this (IsNumber n) oy oz h =
    Some (this, <[this := mkVector n n n]> h) /\
  VectorClass.set this (IsVector o) oy oz h = Some (this, <[this := w]> h).
Proof.
  intros Hthis Ho. split.
  - eapply Vector_set_number_run, Hthis.
  - eapply Vector_set_vector_run; eassumption.
Qed.

(** The call [set(1, 2, 3)] on the vector (7, 8, 9) leaves (1, 1, 1). *)
Lemma C2_set_1_2_3 :
  [mkVector (Fin 7) (Fin 8) (Fin 9)] !! 0%nat = Some (mkVector (Fin 7) (Fin 8) (Fin 9)) /\
  VectorClass.set 0%nat (IsNumber 1) (Some 2%J) (Some (Fin 3))
    [mkVector (Fin 7) (Fin 8) (Fin 9)] =
  Some (0%nat, [mkVector 1 1 1]).
Proof.
  split; [reflexivity |].
  exact (proj1 (C2_set_fields [mkVector (Fin 7) (Fin 8) (Fin 9)] 0%nat _
                  1%J (Some 2%J) (Some (Fin 3)) 0%nat _ eq_refl eq_refl)).
Defined.

(** ** C3: the free functions and the methods they mirror *)

(** C3 (as the claim states it, refuted).  [lerp] with a factor of 2 from
    (0, 0, 0) toward (1, 0, 0): the free function returns (2, 0, 0), the
    method, which clamps the factor, leaves (1, 0, 0) in the copy.
    [rotate] by 0 of (Infinity, 0, 0): the free function returns
    (Infinity, NaN, 0), the method, which replaces NaN by 0, leaves
    (Infinity, 0, 0).  [div] by 5 of (3, 4, 0), on doubles: the free
    function multiplies by [1 / 5] and returns x = 0.6000000000000001,
    the method divides and leaves x = 0.6 in the copy.  [normalize] of
    (2^-1030, 0, 0), on doubles: the magnitude is 2^-1030 and its
    reciprocal overflows, so the free function returns
    (Infinity, NaN, NaN); the method divides and leaves (1, 0, 0). *)
Lemma C3_lerp_rotate_div_differ :
  (observe (apply_function (call_lerp 0%nat 1%nat 2)
              [mkVector 0 0 0; mkVector 1 0 0])
   = Some (Fields (mkVector 2 0 0)) /\
   observe_method (call_lerp 0%nat 1%nat 2) [mkVector 0 0 0; mkVector 1 0 0]
   = Some (Fields (mkVector 1 0 0))) /\
  (observe (apply_function (call_rotate 0%nat 0) [mkVector Infinity 0 0])
   = Some (Fields (mkVector Infinity NaN 0)) /\
   observe_method (call_rotate 0%nat 0) [mkVector Infinity 0 0]
   = Some (Fields (mkVector Infinity 0 0))) /\
  (Binary64.VectorFunctions.div 0%nat 5 [Binary64.mkVector 3 4 0]
   = Some (1%nat,
           [Binary64.mkVector 3 4 0;
            Binary64.mkVector 0x1.3333333333334p-1 0x1.999999999999ap-1 0]) /\
   Binary64.bind (Binary64.VectorClass.copy 0%nat)
     (fun r => Binary64.VectorClass.div r 5) [Binary64.mkVector 3 4 0]
   = Some (1%nat,
           [Binary64.mkVector 3 4 0;
            Binary64.mkVector 0x1.3333333333333p-1 0x1.999999999999ap-1 0]) /\
   (0x1.3333333333334p-1 =? 0x1.3333333333333p-1)%float = false) /\
  (Binary64.VectorFunctions.normalize 0%nat [Binary64.mkVector 0x1p-1030 0 0]
   = Some (1%nat,
           [Binary64.mkVector 0x1p-1030 0 0;
            Binary64.mkVector PrimFloat.infinity PrimFloat.nan PrimFloat.nan]) /\
   Binary64.bind (Binary64.VectorClass.copy 0%nat)
     Binary64.VectorClass.normalize [Binary64.mkVector 0x1p-1030 0 0]
   = Some (1%nat,
           [Binary64.mkVector 0x1p-1030 0 0; Binary64.mkVector 1 0 0])).
Proof.
  unfold observe_method. cbn [apply_method apply_function].
  split; [| split; [| split]];
    [split | split | repeat split; vm_compute; reflexivity
    | split; vm_compute; reflexivity].
  - erewrite returning_run by (eapply lerp_run; reflexivity).
    erewrite observe_object by heap_lookup. num_simp. num_eq.
  - erewrite on_copy_run;
      [ | reflexivity | eapply Vector_lerp_run; reflexivity ].
    cbv zeta. erewrite observe_object by (apply list_lookup_insert_eq; simpl; lia).
    num_simp. num_eq.
  - erewrite returning_run by (eapply rotate_run; reflexivity).
    erewrite observe_object by heap_lookup. cbn. rewrite cos_0, sin_0.
    num_simp. num_eq.
  - erewrite on_copy_run;
      [ | reflexivity | eapply Vector_rotate_run; reflexivity ].
    erewrite observe_object by (apply list_lookup_insert_eq; simpl; lia).
    cbn. rewrite cos_0, sin_0. num_simp. num_eq.
Qed.

(** C3 (amended).  For every free function that mirrors a method, every
    heap and all arguments naming objects of it, with the factor of [lerp]
    inside [0, 1]: the function returns, and the method called with the
    same arguments on a fresh copy of the first vector returns.  For
    [div], [normalize] and [setMag] the function holds the fields
    multiplied by [1 / divisor] and the method the fields divided by
    [divisor], each behind its guard; the two need not be equal.  For
    every other function a caller sees the same result (the same fields
    of the returned object, the same number, boolean or array) as from
    the method, computed by the same formula, except that
    [rotate], [rotateX] and [rotateY] of the class hold [0] where the
    rotated coordinate computed by the function is NaN, and that the
    method [angleBetween] returns [0] where the function returns
    [undefined]. *)
Theorem C3_methods_mirror_functions (c : call) (h : heap) :
  well_formed h c ->
  is_Some (apply_method c) ->
  alpha_in_range c ->
  exists o o' : observed,
    observe (apply_function c h) = Some o /\
    observe_method c h = Some o' /\
    mirrors c h o o'.
Proof.
  intros Hwf [m Hm] Ha. unfold observe_method.
  destruct c as [v a oy oz | v a oy oz | v f | v d | v | v mg | v o | v o
                | v o | v o | v o | v o | v o | v | v ovi ovj ovk | v o al
                | v o | v an | v an | v an | an | po az | u | u u' | p v o
                | | | | | | | | | cx cy cz ];
    try discriminate Hm;
    try destruct a as [o | n];
    try destruct ovi as [vi |]; try destruct ovj as [vj |];
    try destruct ovk as [vk |];
    well_formed_args Hwf; clear m Hm; cbn [apply_method mirrors];
    unfold apply_function.
  (* [div], [normalize], [setMag]: each side by its own formula *)
  all: try (solve [
    eexists; eexists; split; [| split];
    [ erewrite returning_run
        by (first [ eapply div_run | eapply normalize_run | eapply setMag_run ];
            eassumption);
      apply observe_object; heap_lookup
    | erewrite on_copy_run;
      [ | eassumption
        | cbv beta;
          first [ eapply Vector_div_fields_run | eapply Vector_normalize_run
                | eapply Vector_setMag_run ];
          heap_lookup ];
      erewrite observe_object by heap_lookup; reflexivity
    | eexists; split; [eassumption | split; reflexivity] ] ]).
  (* the other functions: what the method leaves is the view of what the
     function returns *)
  all: match goal with
       | |- exists o o' : observed,
              observe ?f = Some o /\ observe ?g = Some o' /\
              o' = method_view ?c o =>
           enough (exists o : observed,
                      observe f = Some o /\
                      observe g = Some (method_view c o))
             as (o1 & Hf1 & Hg1)
             by (exists o1, (method_view c o1); repeat split; assumption)
       end.
  all: try (solve [
    eexists; split;
    [ erewrite returning_run
        by (first [ eapply add_vector_run
                  | eapply add_number_run
                  | eapply sub_vector_run
                  | eapply sub_number_run
                  | eapply mult_run | eapply cross_run
                  | eapply rotate_run | eapply rotateX_run | eapply rotateY_run
                  | eapply equals_run | eapply dist_run | eapply distSq_run
                  | eapply dot_run | eapply toArray_run ];
            eassumption);
      first [ apply observe_object; heap_lookup | reflexivity ]
    | erewrite on_copy_run;
      [ | eassumption
        | cbv beta;
          first [ eapply Vector_add_vector_run
                | eapply Vector_add_number_run
                | eapply Vector_sub_vector_run
                | eapply Vector_sub_number_run
                | eapply Vector_mult_fields_run
                | eapply Vector_cross_run
                | eapply Vector_rotate_run | eapply Vector_rotateX_run
                | eapply Vector_rotateY_run
                | eapply Vector_equals_run | eapply Vector_dist_run
                | eapply Vector_distSq_run | eapply Vector_dot_run
                | eapply Vector_toArray_run ];
          heap_lookup ];
      first [ erewrite observe_object by heap_lookup | idtac ];
      cbn [method_view x y z];
      reflexivity ] ]).
  all: try (solve [
    eexists; split;
    [ erewrite returning_run
        by (first [eapply max_run | eapply min_run]; eassumption);
      apply observe_object; heap_lookup
    | erewrite on_copy_run;
      [ | eassumption
        | first [eapply Vector_max_run | eapply Vector_min_run]; heap_lookup ];
      match goal with
      | |- context [if ?b then _ else _] => destruct b
      end;
      erewrite observe_object by heap_lookup; reflexivity ] ]).
  all: try (solve [
    eexists; split;
    [ erewrite returning_run
        by (rewrite changeOfBasis_default; cbn [basis_or fst snd];
            eapply changeOfBasis_run; heap_lookup);
      apply observe_object; heap_lookup
    | erewrite on_copy_run;
      [ | eassumption
        | rewrite Vector_changeOfBasis_default; cbn [basis_or fst snd];
          eapply Vector_changeOfBasis_run; heap_lookup ];
      erewrite observe_object by heap_lookup; reflexivity ] ]).
  - (* lerp *)
    destruct Ha as (r & -> & Hrange).
    eexists. split.
    + erewrite returning_run by (eapply lerp_run; eassumption).
      apply observe_object. heap_lookup.
    + erewrite on_copy_run;
        [ | eassumption | eapply Vector_lerp_run; heap_lookup ].
      cbv zeta. rewrite clamp_alpha by exact Hrange.
      erewrite observe_object by heap_lookup. reflexivity.
  - (* angleBetween *)
    pose proof (angleBetween_run h v x0 Hr o x1 Hr0) as Hf.
    pose proof (Vector_angleBetween_run (h ++ [x0]) (length h) x0
                  (lookup_new h x0) o x1 (lookup_old h [x0] o x1 Hr0)) as Hm.
    cbv zeta in Hf, Hm.
    rewrite (returning_run _ _ _ _ _ Hf), (on_copy_run _ _ _ _ _ _ _ Hr Hm).
    unfold nne. destruct (hypot3 x0 * hypot3 x1 ==? 0)%J; cbn;
      eexists; split; reflexivity.
Qed.

Lemma C3_methods_mirror_functions_witness :
  well_formed [mkVector (Fin 3) (Fin 4) 0] (call_div 0%nat 2) /\
  is_Some (apply_method (call_div 0%nat 2)) /\
  alpha_in_range (call_div 0%nat 2) /\
  exists o o' : observed,
    observe (apply_function (call_div 0%nat 2) [mkVector (Fin 3) (Fin 4) 0]) = Some o /\
    observe_method (call_div 0%nat 2) [mkVector (Fin 3) (Fin 4) 0] = Some o' /\
    mirrors (call_div 0%nat 2) [mkVector (Fin 3) (Fin 4) 0] o o'.
Proof.
  assert (Hwf : well_formed [mkVector (Fin 3) (Fin 4) 0] (call_div 0%nat 2)).
  { repeat constructor; eexists; reflexivity. }
  assert (Hm : is_Some (apply_method (call_div 0%nat 2))).
  { eexists. reflexivity. }
  split; [exact Hwf |]. split; [exact Hm |]. split; [exact I |].
  exact (C3_methods_mirror_functions (call_div 0%nat 2) [mkVector (Fin 3) (Fin 4) 0]
           Hwf Hm I).
Defined.

(** ** C4: [angleBetween] *)



(** ** C5: the guards of [mult] and [div] *)

(** C5.  On every heap and for every receiver, the method [mult] called
    with [Infinity], [-Infinity] or NaN, and the method [div] called with
    [0], [Infinity], [-Infinity] or NaN, return the receiver itself and
    leave the heap, hence the receiver's fields, as they were. *)
Theorem C5_mult_div_guards (h : heap) (this : ref) :
  VectorClass.mult this Infinity h = Some (this, h) /\
  VectorClass.mult this NegInfinity h = Some (this, h) /\
  VectorClass.mult this NaN h = Some (this, h) /\
  VectorClass.div this 0 h = Some (this, h) /\
  VectorClass.div this Infinity h = Some (this, h) /\
  VectorClass.div this NegInfinity h = Some (this, h) /\
  VectorClass.div this NaN h = Some (this, h).
Proof.
  repeat split; try reflexivity.
  unfold VectorClass.div. cbn. rewrite Reqb_true by reflexivity. reflexivity.
Qed.

(** ** C6: [normalize] *)




(** ** C7: the free functions leave their arguments alone *)

(** C7.  Every call of a free function whose vector arguments are objects
    of the heap returns, and the final heap is the initial heap followed by
    the objects the call has allocated: every object that existed before
    the call, the arguments among them, has the fields it had.  A returned
    object is one of the new ones; the other results ([equals], [dist],
    [distSq], [dot], [toArray], [angleBetween]) are not objects of the
    heap.  [scalarProyection] mutates only objects it has allocated. *)
Theorem C7_functions_preserve_arguments (c : call) (h : heap) :
  well_formed h c ->
  exists (res : value) (h' : heap),
    apply_function c h = Some (res, h') /\
    h `prefix_of` h' /\
    (forall r v, h !! r = Some v -> h' !! r = Some v) /\
    (forall r, res = Object r -> (length h <= r < length h')%nat).
Proof.
  intros Hwf.
  assert (Hgoal : exists (res : value) (k : list Vector),
             apply_function c h = Some (res, h ++ k) /\
             (forall r, res = Object r ->
                        (length h <= r < length h + length k)%nat)).
  { destruct c as [v a oy oz | v a oy oz | v f | v d | v | v m | v o | v o
                  | v o | v o | v o | v o | v o | v | v ovi ovj ovk | v o al
                  | v o | v an | v an | v an | an | po az | u | u u' | p v o
                  | | | | | | | | | cx cy cz ];
      try destruct a as [o | n];
      try destruct ovi as [vi |]; try destruct ovj as [vj |];
      try destruct ovk as [vk |];
      well_formed_args Hwf; unfold apply_function.
    all: try (eexists _, [_]; split;
              [ apply returning_run;
                first [ eapply add_vector_run | eapply add_number_run
                      | eapply sub_vector_run | eapply sub_number_run
                      | eapply mult_run | eapply div_run | eapply normalize_run
                      | eapply setMag_run | eapply max_run | eapply min_run
                      | eapply cross_run | eapply lerp_run | eapply rotate_run
                      | eapply rotateX_run | eapply rotateY_run
                      | eapply fromAngle_run | eapply fromAngles_run
                      | reflexivity ];
                eassumption
              | intros r [= <-]; simpl; lia ]).
    all: try (eexists _, []; rewrite app_nil_r; split;
              [ apply returning_run;
                first [ eapply equals_run | eapply dist_run | eapply distSq_run
                      | eapply dot_run | eapply toArray_run
                      | eapply angleBetween_run ];
                eassumption
              | intros r; cbv beta zeta;
                first [ discriminate | destruct (nne _ _); discriminate ] ]).
    all: try (eexists _, _; split;
              [ apply returning_run; rewrite changeOfBasis_default;
                cbn [basis_or fst snd];
                erewrite changeOfBasis_run by heap_lookup;
                rewrite <- ?app_assoc; reflexivity
              | intros r [= <-]; rewrite ?length_app; simpl; lia ]).
    eexists _, _. split.
    - apply returning_run. eapply scalarProyection_run; eassumption.
    - intros r [= <-]. simpl. lia. }
  destruct Hgoal as (res & k & Hrun & Hfresh).
  exists res, (h ++ k). split; [exact Hrun |]. split; [| split].
  - apply prefix_app_r. reflexivity.
  - intros r v Hr. apply lookup_old, Hr.
  - intros r Hres. rewrite length_app. apply Hfresh, Hres.
Qed.

Lemma C7_functions_preserve_arguments_witness :
  well_formed [mkVector 0 0 0; mkVector 1 0 0; mkVector 1 1 0]
    (call_scalarProyection 0%nat 1%nat 2%nat) /\
  exists (res : value) (h' : heap),
    apply_function (call_scalarProyection 0%nat 1%nat 2%nat)
      [mkVector 0 0 0; mkVector 1 0 0; mkVector 1 1 0] = Some (res, h') /\
    [mkVector 0 0 0; mkVector 1 0 0; mkVector 1 1 0] `prefix_of` h' /\
    (forall r v,
        [mkVector 0 0 0; mkVector 1 0 0; mkVector 1 1 0] !! r = Some v ->
        h' !! r = Some v) /\
    (forall r, res = Object r -> (3 <= r < length h')%nat).
Proof.
  assert (Hwf : well_formed [mkVector 0 0 0; mkVector 1 0 0; mkVector 1 1 0]
                  (call_scalarProyection 0%nat 1%nat 2%nat)).
  { repeat constructor; eexists; reflexivity. }
  split; [exact Hwf |].
  exact (C7_functions_preserve_arguments
           (call_scalarProyection 0%nat 1%nat 2%nat)
           [mkVector 0 0 0; mkVector 1 0 0; mkVector 1 1 0] Hwf).
Defined.

(** ** C8: the two copies of the facade *)

(** C8.  Each of the twenty-five functions of src/vectorFunctions.ts is
    the same function as its namesake in the package entry point: same
    result and same final heap on every heap and all arguments. *)
Theorem C8_two_copies_agree :
  Index.add = VectorFunctions.add /\
  Index.sub = VectorFunctions.sub /\
  Index.mult = VectorFunctions.mult /\
  Index.div = VectorFunctions.div /\
  Index.normalize = VectorFunctions.normalize /\
  Index.setMag = VectorFunctions.setMag /\
  Index.max = VectorFunctions.max /\
  Index.min = VectorFunctions.min /\
  Index.equals = VectorFunctions.equals /\
  Index.dist = VectorFunctions.dist /\
  Index.distSq = VectorFunctions.distSq /\
  Index.cross = VectorFunctions.cross /\
  Index.dot = VectorFunctions.dot /\
  Index.toArray = VectorFunctions.toArray /\
  Index.changeOfBasis = VectorFunctions.changeOfBasis /\
  Index.lerp = VectorFunctions.lerp /\
  Index.angleBetween = VectorFunctions.angleBetween /\
  Index.rotate = VectorFunctions.rotate /\
  Index.rotateX = VectorFunctions.rotateX /\
  Index.rotateY = VectorFunctions.rotateY /\
  Index.fromAngle = VectorFunctions.fromAngle /\
  Index.fromAngles = VectorFunctions.fromAngles /\
  Index.random2D = VectorFunctions.random2D /\
  Index.random3D = VectorFunctions.random3D /\
  Index.scalarProyection = VectorFunctions.scalarProyection.
Proof. repeat split. Qed.

(** ** C9: the cross product *)

(** C9 (as the claim states it, refuted).  For a = (Infinity, 0, 0) and
    b = (0, 1, 0), [a.cross(b).dot(a)] is NaN, not 0. *)
Lemma C9_cross_dot_infinite :
  (let* c := VectorClass.cross 0%nat 1%nat in VectorClass.dot c 0%nat)
    [mkVector Infinity 0 0; mkVector 0 1 0] =
  Some (NaN, [mkVector Infinity 0 0; mkVector 0 1 0; mkVector 0 NaN Infinity]).
Proof.
  erewrite (bind_run (VectorClass.cross _ _))
    by (eapply Vector_cross_run; reflexivity).
  erewrite Vector_dot_run by reflexivity.
  num_simp. num_eq.
Qed.

(** C9 (amended).  For vectors a and b whose fields are all finite,
    [a.cross(b).dot(a)] and [a.cross(b).dot(b)] are exactly 0 (arithmetic
    on finite numbers being exact); [a] and [b] may be the same object. *)
Theorem C9_cross_orthogonal (h : heap) (a b : ref) (ax ay az bx by' bz : R) :
  h !! a = Some (mkVector (Fin ax) (Fin ay) (Fin az)) ->
  h !! b = Some (mkVector (Fin bx) (Fin by') (Fin bz)) ->
  exists h',
    (let* c := VectorClass.cross a b in VectorClass.dot c a) h = Some (Fin 0, h') /\
    (let* c := VectorClass.cross a b in VectorClass.dot c b) h = Some (Fin 0, h').
Proof.
  intros Ha Hb. eexists. split.
  - erewrite (bind_run (VectorClass.cross _ _))
      by (eapply Vector_cross_run; eassumption).
    erewrite Vector_dot_run by heap_lookup.
    cbn. f_equal. f_equal. f_equal. ring.
  - erewrite (bind_run (VectorClass.cross _ _))
      by (eapply Vector_cross_run; eassumption).
    erewrite Vector_dot_run by heap_lookup.
    cbn. f_equal. f_equal. f_equal. ring.
Qed.

Lemma C9_cross_orthogonal_witness :
  [mkVector 1 0 0; mkVector 0 1 0] !! 0%nat = Some (mkVector 1 0 0) /\
  [mkVector 1 0 0; mkVector 0 1 0] !! 1%nat = Some (mkVector 0 1 0) /\
  exists h',
    (let* c := VectorClass.cross 0%nat 1%nat in VectorClass.dot c 0%nat)
      [mkVector 1 0 0; mkVector 0 1 0] = Some (Fin 0, h') /\
    (let* c := VectorClass.cross 0%nat 1%nat in VectorClass.dot c 1%nat)
      [mkVector 1 0 0; mkVector 0 1 0] = Some (Fin 0, h').
Proof.
  split; [reflexivity |]. split; [reflexivity |].
  exact (C9_cross_orthogonal [mkVector 1 0 0; mkVector 0 1 0] 0%nat 1%nat
           1 0 0 0 1 0 eq_refl eq_refl).
Defined.

(** ** C10: [max] and [min] on equal magnitudes *)

(** C10.  When the receiver and the argument have equal magnitudes, the
    methods [max] and [min] both return the argument (the same object, the
    heap untouched), and the free functions [max] and [min] both return a
    new object holding the fields of their second argument.  The methods
    return a receiver distinct from the argument only when the comparison
    is strict. *)
Theorem C10_max_min_ties (h : heap) (this o : ref) (v w : Vector) :
  h !! this = Some v ->
  h !! o = Some w ->
  ((hypot3 v ==? hypot3 w)%J = true ->
   VectorClass.max this o h = Some (o, h) /\
   VectorClass.min this o h = Some (o, h) /\
   VectorFunctions.max this o h = Some (length h, h ++ [w]) /\
   VectorFunctions.min this o h = Some (length h, h ++ [w])) /\
  (this <> o ->
   (VectorClass.max this o h = Some (this, h) ->
    (hypot3 v >? hypot3 w)%J = true) /\
   (VectorClass.min this o h = Some (this, h) ->
    (hypot3 v <? hypot3 w)%J = true)).
Proof.
  intros Hthis Ho. split.
  - intros Heq. apply neq_true in Heq as [Heq _].
    rewrite (Vector_max_run h this v Hthis o w Ho).
    rewrite (Vector_min_run h this v Hthis o w Ho).
    rewrite (max_run h this v Hthis o w Ho).
    rewrite (min_run h this v Hthis o w Ho).
    unfold ngt. rewrite Heq, nlt_irrefl. repeat split; reflexivity.
  - intros Hne. split.
    + rewrite (Vector_max_run h this v Hthis o w Ho).
      destruct (hypot3 v >? hypot3 w)%J; [reflexivity | congruence].
    + rewrite (Vector_min_run h this v Hthis o w Ho).
      destruct (hypot3 v <? hypot3 w)%J; [reflexivity | congruence].
Qed.

Lemma C10_max_min_ties_witness :
  [mkVector 1 0 0; mkVector 0 1 0] !! 0%nat = Some (mkVector 1 0 0) /\
  [mkVector 1 0 0; mkVector 0 1 0] !! 1%nat = Some (mkVector 0 1 0) /\
  (hypot3 (mkVector 1 0 0) ==? hypot3 (mkVector 0 1 0))%J = true /\
  VectorClass.max 0%nat 1%nat [mkVector 1 0 0; mkVector 0 1 0] =
    Some (1%nat, [mkVector 1 0 0; mkVector 0 1 0]) /\
  VectorFunctions.max 0%nat 1%nat [mkVector 1 0 0; mkVector 0 1 0] =
    Some (2%nat, [mkVector 1 0 0; mkVector 0 1 0; mkVector 0 1 0]).
Proof.
  assert (Heq : (hypot3 (mkVector 1 0 0) ==? hypot3 (mkVector 0 1 0))%J = true).
  { unfold hypot3. cbn. apply Reqb_true. f_equal. lra. }
  pose proof (proj1 (C10_max_min_ties [mkVector 1 0 0; mkVector 0 1 0]
                       0%nat 1%nat _ _ eq_refl eq_refl) Heq) as H.
  split; [reflexivity |]. split; [reflexivity |]. split; [exact Heq |].
  split; [exact (proj1 H) | exact (proj1 (proj2 (proj2 H)))].
Defined.

(** * Further properties of the class and of the free functions *)

(** ** Arithmetic *)

Lemma nmul_comm (a b : number) : (a * b = b * a)%J.
Proof. destruct a, b; cbn; try reflexivity. f_equal. apply Rmult_comm. Qed.

(** Scaling by a finite non-zero [k] and dividing by it gives back any
    number, the infinities and NaN included. *)
Lemma nmul_ndiv_cancel (a : number) (k : R) :
  k <> 0 -> (a * Fin k / Fin k = a)%J.
Proof.
  intros Hk. destruct a as [r| | |]; cbn.
  - rewrite Reqb_false by exact Hk. f_equal. field. exact Hk.
  - destruct (Rlt_dec 0 k).
    + rewrite mul_inf_pos by assumption. cbn. rewrite Reqb_false by exact Hk.
      rewrite mul_inf_pos by assumption. reflexivity.
    + rewrite mul_inf_neg by lra. cbn. rewrite Reqb_false by exact Hk.
      rewrite mul_inf_neg by lra. reflexivity.
  - destruct (Rlt_dec 0 k).
    + rewrite mul_inf_pos by assumption. cbn. rewrite Reqb_false by exact Hk.
      rewrite mul_inf_pos by assumption. reflexivity.
    + rewrite mul_inf_neg by lra. cbn. rewrite Reqb_false by exact Hk.
      rewrite mul_inf_neg by lra. reflexivity.
  - reflexivity.
Qed.

Lemma Rltb_spec' (a b : R) : Rltb a b = true -> a < b.
Proof. unfold Rltb. destruct (Rlt_dec a b); [trivial | discriminate]. Qed.

Lemma ndiv_nmul_cancel (a : number) (k : R) :
  k <> 0 -> (a / Fin k * Fin k = a)%J.
Proof.
  intros Hk. destruct a as [r| | |]; cbn; rewrite ?Reqb_false by exact Hk; cbn.
  - f_equal. field. exact Hk.
  - destruct (Rlt_dec 0 k).
    + rewrite mul_inf_pos by assumption. cbn.
      rewrite mul_inf_pos by assumption. reflexivity.
    + rewrite mul_inf_neg by lra. cbn.
      rewrite mul_inf_neg by lra. reflexivity.
  - destruct (Rlt_dec 0 k).
    + rewrite mul_inf_pos by assumption. cbn.
      rewrite mul_inf_pos by assumption. reflexivity.
    + rewrite mul_inf_neg by lra. cbn.
      rewrite mul_inf_neg by lra. reflexivity.
  - reflexivity.
Qed.

(** ** X1: the methods that work in place touch only their receiver *)

Lemma mutation_run (h : heap) (this : ref) (v : Vector) (m : mutation) :
  h !! this = Some v ->
  Forall (fun r => is_Some (h !! r)) (mutation_arguments m) ->
  exists (v' : Vector) (k : list Vector),
    apply_mutation this m h = Some (this, <[this := v']> (h ++ k)).
Proof.
  intros Hthis Hargs.
  destruct m as [a oy oz | a oy oz | f | d | a oy oz | | mg | mg | mg
                | lo hi | ovi ovj ovk | o al | an | an | an ];
    try destruct a as [o | n];
    try destruct ovi as [vi |]; try destruct ovj as [vj |];
    try destruct ovk as [vk |];
    simpl in Hargs;
    repeat match type of Hargs with
           | Forall _ (_ :: _) =>
               let Hx := fresh "Hr" in
               apply Forall_cons in Hargs as [[? Hx] Hargs]
           end;
    clear Hargs; cbn [apply_mutation].
  all: try (eexists _, []; rewrite app_nil_r;
            first [ eapply Vector_add_vector_run
                  | eapply Vector_add_number_run
                  | eapply Vector_sub_vector_run
                  | eapply Vector_sub_number_run
                  | eapply Vector_mult_fields_run
                  | eapply Vector_div_fields_run
                  | eapply Vector_set_vector_run
                  | eapply Vector_set_number_run
                  | eapply Vector_normalize_run
                  | eapply Vector_setMag_run
                  | eapply Vector_maxMag_run
                  | eapply Vector_minMag_run
                  | eapply Vector_constrainMag_run
                  | eapply Vector_lerp_run
                  | eapply Vector_rotate_run
                  | eapply Vector_rotateX_run
                  | eapply Vector_rotateY_run ];
            eassumption).
  all: rewrite Vector_changeOfBasis_default; cbn [basis_or fst snd];
    eexists _, _;
    erewrite Vector_changeOfBasis_run by heap_lookup;
    do 3 f_equal;
    first [ rewrite <- ?app_assoc; reflexivity | symmetry; apply app_nil_r ].
Qed.



(** ** X2, X3: [add] and [sub] *)

(** X2.  On finite fields, [a.add(b).sub(b)] with [b] another object
    than [a], and [a.add(x, y, z).sub(x, y, z)] with finite numbers,
    return [a] and leave the heap as it was: [a] has its fields back. *)
Theorem X2_add_sub_inverse (h : heap) (a b : ref)
    (ax ay az bx by' bz nx ny nz : R) :
  h !! a = Some (mkVector (Fin ax) (Fin ay) (Fin az)) ->
  h !! b = Some (mkVector (Fin bx) (Fin by') (Fin bz)) ->
  a <> b ->
  (let* r := VectorClass.add a (IsVector b) None None in
   VectorClass.sub r (IsVector b) None None) h = Some (a, h) /\
  (let* r := VectorClass.add a (IsNumber (Fin nx)) (Some (Fin ny)) (Some (Fin nz)) in
   VectorClass.sub r (IsNumber (Fin nx)) (Some (Fin ny)) (Some (Fin nz))) h
  = Some (a, h).
Proof.
  intros Ha Hb Hne. split.
  - erewrite (bind_run (VectorClass.add _ _ _ _))
      by (eapply Vector_add_vector_run; eassumption).
    erewrite Vector_sub_vector_run by heap_lookup.
    rewrite list_insert_insert_eq. cbn.
    rewrite <- (list_insert_id h a _ Ha) at 2. num_eq.
  - erewrite (bind_run (VectorClass.add _ _ _ _))
      by (eapply Vector_add_number_run; eassumption).
    erewrite Vector_sub_number_run by heap_lookup.
    rewrite list_insert_insert_eq. cbn.
    rewrite <- (list_insert_id h a _ Ha) at 2. num_eq.
Qed.

Lemma X2_add_sub_inverse_witness :
  [mkVector 1 2 0; mkVector 0 1 2] !! 0%nat = Some (mkVector 1 2 0) /\
  [mkVector 1 2 0; mkVector 0 1 2] !! 1%nat = Some (mkVector 0 1 2) /\
  0%nat <> 1%nat /\
  (let* r := VectorClass.add 0%nat (IsVector 1%nat) None None in
   VectorClass.sub r (IsVector 1%nat) None None)
    [mkVector 1 2 0; mkVector 0 1 2]
  = Some (0%nat, [mkVector 1 2 0; mkVector 0 1 2]).
Proof.
  assert (Hne : 0%nat <> 1%nat) by discriminate.
  split; [reflexivity |]. split; [reflexivity |]. split; [exact Hne |].
  exact (proj1 (X2_add_sub_inverse [mkVector 1 2 0; mkVector 0 1 2]
                  0%nat 1%nat 1 2 0 0 1 2 0 0 0 eq_refl eq_refl Hne)).
Defined.

(** X3.  When the argument is the receiver itself the inverse law fails:
    on finite fields and in exact arithmetic, [a.add(a)] doubles them,
    [a.sub(a)] leaves (0, 0, 0), and so does [a.add(a).sub(a)]. *)
Theorem X3_add_sub_alias (h : heap) (a : ref) (ax ay az : R) :
  h !! a = Some (mkVector (Fin ax) (Fin ay) (Fin az)) ->
  VectorClass.add a (IsVector a) None None h
  = Some (a, <[a := mkVector (Fin (ax + ax)) (Fin (ay + ay)) (Fin (az + az))]> h) /\
  VectorClass.sub a (IsVector a) None None h
  = Some (a, <[a := mkVector 0 0 0]> h) /\
  (let* r := VectorClass.add a (IsVector a) None None in
   VectorClass.sub r (IsVector a) None None) h
  = Some (a, <[a := mkVector 0 0 0]> h).
Proof.
  intros Ha. split; [| split].
  - erewrite Vector_add_vector_run by eassumption. reflexivity.
  - erewrite Vector_sub_vector_run by eassumption. cbn. num_eq.
  - erewrite (bind_run (VectorClass.add _ _ _ _))
      by (eapply Vector_add_vector_run; eassumption).
    erewrite Vector_sub_vector_run by heap_lookup.
    rewrite list_insert_insert_eq. cbn. num_eq.
Qed.

Lemma X3_add_sub_alias_witness :
  [mkVector 1 2 0] !! 0%nat = Some (mkVector 1 2 0) /\
  (let* r := VectorClass.add 0%nat (IsVector 0%nat) None None in
   VectorClass.sub r (IsVector 0%nat) None None) [mkVector 1 2 0]
  = Some (0%nat, [mkVector 0 0 0]).
Proof.
  split; [reflexivity |].
  exact (proj2 (proj2 (X3_add_sub_alias [mkVector 1 2 0] 0%nat 1 2 0 eq_refl))).
Defined.

(** ** X4: [mult] and [div] *)

(** X4.  For a finite non-zero [k], [a.mult(k).div(k)] and
    [a.div(k).mult(k)] return [a] and leave the heap as it was, whatever
    the fields of [a] (infinite and NaN fields included), arithmetic on
    finite numbers being exact. *)
Theorem X4_mult_div_inverse (h : heap) (a : ref) (v : Vector) (k : R) :
  h !! a = Some v ->
  k <> 0 ->
  (let* r := VectorClass.mult a (Fin k) in VectorClass.div r (Fin k)) h
  = Some (a, h) /\
  (let* r := VectorClass.div a (Fin k) in VectorClass.mult r (Fin k)) h
  = Some (a, h).
Proof.
  intros Ha Hk. split.
  - erewrite (bind_run (VectorClass.mult _ _))
      by (eapply Vector_mult_run; [eassumption | reflexivity]).
    erewrite Vector_div_run;
      [ | heap_lookup | reflexivity | cbn; apply Reqb_false, Hk ].
    rewrite list_insert_insert_eq. cbn [x y z].
    rewrite !nmul_ndiv_cancel by exact Hk.
    rewrite Vector_eta. apply f_equal, f_equal, list_insert_id, Ha.
  - erewrite (bind_run (VectorClass.div _ _))
      by (eapply Vector_div_run;
          [eassumption | reflexivity | cbn; apply Reqb_false, Hk]).
    erewrite Vector_mult_run; [ | heap_lookup | reflexivity ].
    rewrite list_insert_insert_eq. cbn [x y z].
    rewrite !ndiv_nmul_cancel by exact Hk.
    rewrite Vector_eta. apply f_equal, f_equal, list_insert_id, Ha.
Qed.

Lemma X4_mult_div_inverse_witness :
  [mkVector Infinity 2 NaN] !! 0%nat = Some (mkVector Infinity 2 NaN) /\
  -2 <> 0 /\
  (let* r := VectorClass.mult 0%nat (Fin (-2)) in VectorClass.div r (Fin (-2)))
    [mkVector Infinity 2 NaN]
  = Some (0%nat, [mkVector Infinity 2 NaN]).
Proof.
  assert (Hk : -2 <> 0) by lra.
  split; [reflexivity |]. split; [exact Hk |].
  exact (proj1 (X4_mult_div_inverse [mkVector Infinity 2 NaN] 0%nat _ (-2)
                  eq_refl Hk)).
Defined.

(** ** X5, X6: the symmetric readers *)

Lemma nsub_swap (a b : number) : (b - a = - (a - b))%J.
Proof. destruct a, b; cbn; try reflexivity. f_equal. ring. Qed.

Lemma hypot_nneg (a b c : number) :
  Math.hypot (- a) (- b) (- c) = Math.hypot a b c.
Proof.
  destruct a, b, c; cbn; try reflexivity.
  unfold Math.hypot. cbn. do 2 f_equal. ring.
Qed.

(** X5.  [dot] and [angleBetween] are symmetric: [a.dot(b)] and
    [b.dot(a)], [a.angleBetween(b)] and [b.angleBetween(a)] return the
    same number on every heap, whatever the fields (infinite and NaN
    included; NaN standing for NaN). *)
Theorem X5_dot_angle_symmetric (h : heap) (a b : ref) (v w : Vector) :
  h !! a = Some v ->
  h !! b = Some w ->
  VectorClass.dot a b h = VectorClass.dot b a h /\
  VectorClass.angleBetween a b h = VectorClass.angleBetween b a h.
Proof.
  intros Ha Hb.
  rewrite (Vector_dot_run h a v Ha b w Hb), (Vector_dot_run h b w Hb a v Ha).
  rewrite (Vector_angleBetween_run h a v Ha b w Hb).
  rewrite (Vector_angleBetween_run h b w Hb a v Ha).
  cbv zeta.
  rewrite (nmul_comm (x w) (x v)), (nmul_comm (y w) (y v)),
    (nmul_comm (z w) (z v)), (nmul_comm (hypot3 w) (hypot3 v)).
  split; reflexivity.
Qed.

Lemma X5_dot_angle_symmetric_witness :
  [mkVector 1 2 0; mkVector 0 1 NaN] !! 0%nat = Some (mkVector 1 2 0) /\
  [mkVector 1 2 0; mkVector 0 1 NaN] !! 1%nat = Some (mkVector 0 1 NaN) /\
  VectorClass.dot 0%nat 1%nat [mkVector 1 2 0; mkVector 0 1 NaN]
  = VectorClass.dot 1%nat 0%nat [mkVector 1 2 0; mkVector 0 1 NaN].
Proof.
  split; [reflexivity |]. split; [reflexivity |].
  exact (proj1 (X5_dot_angle_symmetric [mkVector 1 2 0; mkVector 0 1 NaN]
                  0%nat 1%nat _ _ eq_refl eq_refl)).
Defined.

(** X6.  [dist] and [distSq] are symmetric in the two vectors, on all
    fields; the distance of an object with finite fields to itself is 0;
    and [distSq] is the square of [dist]. *)
Theorem X6_dist_symmetric (h : heap) (a b : ref) (v w : Vector) :
  h !! a = Some v ->
  h !! b = Some w ->
  VectorClass.dist a b h = VectorClass.dist b a h /\
  VectorClass.distSq a b h = VectorClass.distSq b a h /\
  (exists d, VectorClass.dist a b h = Some (d, h) /\
             VectorClass.distSq a b h = Some ((d * d)%J, h)) /\
  (finite v -> VectorClass.dist a a h = Some (Fin 0, h)).
Proof.
  intros Ha Hb.
  rewrite (Vector_dist_run h a v Ha b w Hb), (Vector_dist_run h b w Hb a v Ha).
  rewrite (Vector_distSq_run h a v Ha b w Hb), (Vector_distSq_run h b w Hb a v Ha).
  rewrite (Vector_dist_run h a v Ha a v Ha).
  rewrite (nsub_swap (x v) (x w)), (nsub_swap (y v) (y w)),
    (nsub_swap (z v) (z w)), hypot_nneg.
  split; [reflexivity |]. split; [reflexivity |]. split.
  - eexists. split; reflexivity.
  - intros (r & s & t & ->). cbn. unfold Math.hypot. cbn. do 3 f_equal.
    replace ((r + - r) * (r + - r) + (s + - s) * (s + - s)
             + (t + - t) * (t + - t)) with 0 by ring.
    apply sqrt_0.
Qed.

Lemma X6_dist_symmetric_witness :
  [mkVector 1 2 0; mkVector 0 1 Infinity] !! 0%nat = Some (mkVector 1 2 0) /\
  [mkVector 1 2 0; mkVector 0 1 Infinity] !! 1%nat = Some (mkVector 0 1 Infinity) /\
  VectorClass.dist 0%nat 1%nat [mkVector 1 2 0; mkVector 0 1 Infinity]
  = VectorClass.dist 1%nat 0%nat [mkVector 1 2 0; mkVector 0 1 Infinity].
Proof.
  split; [reflexivity |]. split; [reflexivity |].
  exact (proj1 (X6_dist_symmetric [mkVector 1 2 0; mkVector 0 1 Infinity]
                  0%nat 1%nat _ _ eq_refl eq_refl)).
Defined.

(** ** X7: [equals] *)

Lemma neq_iff (a b : number) : (a ==? b)%J = true <-> a = b /\ a <> NaN.
Proof.
  split; [apply neq_true |].
  intros [<- Hn]. destruct a; cbn; try reflexivity; try contradiction.
  apply Reqb_true. reflexivity.
Qed.

(** X7.  [a.equals(b)] returns [true] exactly when the two objects hold
    the same fields and none of them is NaN; so an object with a NaN field
    does not equal itself, nor its copy.  It leaves the heap as it is. *)
Theorem X7_equals (h : heap) (a b : ref) (v w : Vector) :
  h !! a = Some v ->
  h !! b = Some w ->
  exists e : bool,
    VectorClass.equals a b h = Some (e, h) /\
    (e = true <-> v = w /\ x v <> NaN /\ y v <> NaN /\ z v <> NaN).
Proof.
  intros Ha Hb. eexists. split.
  - eapply Vector_equals_run; eassumption.
  - rewrite !andb_true_iff, !neq_iff. destruct v, w; cbn. split.
    + intros [[[-> ?] [-> ?]] [-> ?]]. repeat split; assumption.
    + intros ([= -> -> ->] & ? & ? & ?). repeat split; assumption.
Qed.

Lemma X7_equals_witness :
  [mkVector 1 NaN 0] !! 0%nat = Some (mkVector 1 NaN 0) /\
  exists e : bool,
    VectorClass.equals 0%nat 0%nat [mkVector 1 NaN 0]
    = Some (e, [mkVector 1 NaN 0]) /\
    (e = true <->
     mkVector 1 NaN 0 = mkVector 1 NaN 0 /\
     x (mkVector 1 NaN 0) <> NaN /\ y (mkVector 1 NaN 0) <> NaN /\
     z (mkVector 1 NaN 0) <> NaN).
Proof.
  split; [reflexivity |].
  exact (X7_equals [mkVector 1 NaN 0] 0%nat 0%nat _ _ eq_refl eq_refl).
Defined.

(** ** X8: [lerp] *)

Lemma nadd_NaN_r (a : number) : (a + NaN)%J = NaN.
Proof. destruct a; reflexivity. Qed.

Lemma nmul_NaN_r (a : number) : (a * NaN)%J = NaN.
Proof. destruct a; reflexivity. Qed.

(** X8.  [a.lerp(b, alpha)]: a factor below 0 (down to [-Infinity]) acts as
    0 and a factor above 1 (up to [Infinity]) as 1; a NaN factor leaves
    NaN in all three fields of [a]; and, on finite fields and in exact
    arithmetic, the factor 0 leaves [a] as it was and the factor 1 gives
    [a] the fields of [b]. *)
Theorem X8_lerp (h : heap) (a b : ref) (v w : Vector) (alpha : number) :
  h !! a = Some v ->
  h !! b = Some w ->
  ((alpha <? 0)%J = true ->
   VectorClass.lerp a b alpha h = VectorClass.lerp a b 0 h) /\
  ((alpha >? 1)%J = true ->
   VectorClass.lerp a b alpha h = VectorClass.lerp a b 1 h) /\
  (finite v -> finite w -> VectorClass.lerp a b 0 h = Some (a, h)) /\
  (finite v -> finite w -> VectorClass.lerp a b 1 h = Some (a, <[a := w]> h)) /\
  VectorClass.lerp a b NaN h = Some (a, <[a := mkVector NaN NaN NaN]> h).
Proof.
  intros Ha Hb.
  rewrite !(Vector_lerp_run h a v Ha b w Hb). cbv zeta.
  split; [| split; [| split; [| split]]].
  - intros Hlt. do 3 f_equal.
    destruct alpha as [r| | |]; cbn in Hlt |- *; try discriminate.
    + rewrite Hlt. cbn. rewrite !(Rltb_false 0 0) by lra. reflexivity.
    + rewrite !(Rltb_false 0 0) by lra. reflexivity.
  - intros Hgt. unfold ngt in Hgt.
    assert (Hm : Math.min (Math.max alpha 0) 1 = Math.min (Math.max 1 0) 1).
    { destruct alpha as [r| | |]; cbn in Hgt |- *; try discriminate.
      - apply Rltb_spec' in Hgt.
        rewrite (Rltb_false r 0), (Rltb_false 1 0) by lra. cbn.
        rewrite (Rltb_true 1 r), (Rltb_false 1 1) by lra. reflexivity.
      - rewrite (Rltb_false 1 0) by lra. cbn.
        rewrite (Rltb_false 1 1) by lra. reflexivity. }
    rewrite Hm. reflexivity.
  - intros (r & s & t & ->) (r' & s' & t' & ->).
    rewrite <- (list_insert_id h a _ Ha) at 2.
    num_simp. num_eq.
  - intros (r & s & t & ->) (r' & s' & t' & ->).
    num_simp. num_eq.
  - cbn. rewrite !nmul_NaN_r, !nadd_NaN_r. reflexivity.
Qed.

Lemma X8_lerp_witness :
  [mkVector 1 2 0; mkVector 0 1 2] !! 0%nat = Some (mkVector 1 2 0) /\
  [mkVector 1 2 0; mkVector 0 1 2] !! 1%nat = Some (mkVector 0 1 2) /\
  (Infinity >? 1)%J = true /\
  finite (mkVector 1 2 0) /\ finite (mkVector 0 1 2) /\
  VectorClass.lerp 0%nat 1%nat Infinity [mkVector 1 2 0; mkVector 0 1 2]
  = VectorClass.lerp 0%nat 1%nat 1 [mkVector 1 2 0; mkVector 0 1 2] /\
  VectorClass.lerp 0%nat 1%nat 1 [mkVector 1 2 0; mkVector 0 1 2]
  = Some (0%nat, [mkVector 0 1 2; mkVector 0 1 2]).
Proof.
  assert (Hv : finite (mkVector 1 2 0)) by (exists 1, 2, 0; reflexivity).
  assert (Hw : finite (mkVector 0 1 2)) by (exists 0, 1, 2; reflexivity).
  pose proof (X8_lerp [mkVector 1 2 0; mkVector 0 1 2] 0%nat 1%nat _ _
                Infinity eq_refl eq_refl) as (_ & Hgt & _ & Hone & _).
  split; [reflexivity |]. split; [reflexivity |]. split; [reflexivity |].
  split; [exact Hv |]. split; [exact Hw |].
  split; [exact (Hgt eq_refl) | exact (Hone Hv Hw)].
Defined.

(** ** X9: [normalize] on fields that are not finite, and twice *)

Lemma hypot3_not_finite (v : Vector) : ~ finite v -> isFinite (hypot3 v) = false.
Proof.
  intros Hn. destruct v as [[a| | |] [b| | |] [c| | |]]; try reflexivity.
  exfalso. apply Hn. exists a, b, c. reflexivity.
Qed.

Lemma div_fields_not_finite (v : Vector) (d : number) :
  isFinite d = false -> div_fields v d = v.
Proof. intros Hd. unfold div_fields. rewrite Hd. reflexivity. Qed.

Lemma normalize_fields_not_finite (v : Vector) :
  ~ finite v -> normalize_fields v = v.
Proof.
  intros Hn. pose proof (hypot3_not_finite v Hn) as Hh.
  unfold normalize_fields. rewrite div_fields_not_finite by exact Hh.
  destruct (hypot3 v); try discriminate; reflexivity.
Qed.

Lemma unit_sum (a b c : R) :
  a <> 0 \/ b <> 0 \/ c <> 0 ->
  let m := sqrt (a * a + b * b + c * c) in
  a / m * (a / m) + b / m * (b / m) + c / m * (c / m) = 1.
Proof.
  intros H m. pose proof (sqrt_sum_squares_pos a b c H) as Hm. fold m in Hm.
  assert (Hmm : m * m = a * a + b * b + c * c).
  { apply sqrt_sqrt, sum_squares_nonneg. }
  replace (a / m * (a / m) + b / m * (b / m) + c / m * (c / m))
    with ((a * a + b * b + c * c) / (m * m)) by (field; lra).
  rewrite <- Hmm. field. lra.
Qed.

(** The fields [normalize] leaves for finite fields not all zero. *)
Lemma normalize_fields_finite (a b c : R) :
  a <> 0 \/ b <> 0 \/ c <> 0 ->
  let m := sqrt (a * a + b * b + c * c) in
  normalize_fields (mkVector (Fin a) (Fin b) (Fin c))
  = mkVector (Fin (a / m)) (Fin (b / m)) (Fin (c / m)).
Proof.
  intros H m. pose proof (sqrt_sum_squares_pos a b c H) as Hm. fold m in Hm.
  unfold normalize_fields.
  change (hypot3 (mkVector (Fin a) (Fin b) (Fin c))) with (Fin m).
  cbn [neq]. rewrite Reqb_false by lra.
  unfold div_fields. cbn [isFinite negb orb neq]. rewrite Reqb_false by lra.
  cbn [x y z ndiv]. rewrite Reqb_false by lra. reflexivity.
Qed.

Lemma normalize_fields_zero : normalize_fields (mkVector 0 0 0) = mkVector 0 0 0.
Proof.
  unfold normalize_fields. rewrite hypot3_of_zero. cbn.
  rewrite Reqb_true by reflexivity. reflexivity.
Qed.

Lemma all_zero_dec (a b c : R) : (a = 0 /\ b = 0 /\ c = 0) \/ (a <> 0 \/ b <> 0 \/ c <> 0).
Proof.
  destruct (Req_dec_T a 0); [| right; left; assumption].
  destruct (Req_dec_T b 0); [| right; right; left; assumption].
  destruct (Req_dec_T c 0); [left; repeat split; assumption | right; right; right; assumption].
Qed.

Lemma finite_dec (v : Vector) : finite v \/ ~ finite v.
Proof.
  destruct v as [[a| | |] [b| | |] [c| | |]];
    try (left; exists a, b, c; reflexivity);
    right; intros (r & s & t & [=]).
Qed.

Lemma normalize_fields_idempotent (v : Vector) :
  normalize_fields (normalize_fields v) = normalize_fields v.
Proof.
  destruct (finite_dec v) as [(a & b & c & ->) | Hn].
  - destruct (all_zero_dec a b c) as [(-> & -> & ->) | Hnz].
    + rewrite !normalize_fields_zero. reflexivity.
    + pose proof (sqrt_sum_squares_pos a b c Hnz) as Hm.
      rewrite (normalize_fields_finite a b c Hnz).
      set (m := sqrt (a * a + b * b + c * c)) in *.
      assert (Hnz' : a / m <> 0 \/ b / m <> 0 \/ c / m <> 0).
      { assert (Hd : forall r, r <> 0 -> r / m <> 0).
        { intros r Hr H0. unfold Rdiv in H0.
          apply Rmult_integral in H0 as [H0 | H0]; [contradiction |].
          revert H0. apply Rinv_neq_0_compat. lra. }
        destruct Hnz as [H | [H | H]]; auto. }
      rewrite (normalize_fields_finite _ _ _ Hnz').
      pose proof (unit_sum a b c Hnz) as Hu. cbv zeta in Hu. fold m in Hu.
      cbv zeta. rewrite Hu, sqrt_1. num_eq.
  - rewrite (normalize_fields_not_finite v Hn).
    apply normalize_fields_not_finite, Hn.
Qed.

(** X9.  [normalize] leaves an object as it is when one of its fields is
    infinite or NaN (the magnitude is then not finite and [div] skips it);
    and on every object, normalizing twice leaves what normalizing once
    leaves. *)
Theorem X9_normalize_edge (h : heap) (a : ref) (v : Vector) :
  h !! a = Some v ->
  (~ finite v -> VectorClass.normalize a h = Some (a, h)) /\
  (let* r := VectorClass.normalize a in VectorClass.normalize r) h
  = VectorClass.normalize a h.
Proof.
  intros Ha. split.
  - intros Hn. rewrite (Vector_normalize_run h a v Ha).
    rewrite normalize_fields_not_finite by exact Hn.
    rewrite list_insert_id by exact Ha. reflexivity.
  - rewrite (bind_run _ _ _ _ _ (Vector_normalize_run h a v Ha)).
    erewrite Vector_normalize_run by heap_lookup.
    rewrite list_insert_insert_eq, normalize_fields_idempotent.
    symmetry. apply Vector_normalize_run, Ha.
Qed.

Lemma X9_normalize_edge_witness :
  [mkVector 1 Infinity 0] !! 0%nat = Some (mkVector 1 Infinity 0) /\
  ~ finite (mkVector 1 Infinity 0) /\
  VectorClass.normalize 0%nat [mkVector 1 Infinity 0]
  = Some (0%nat, [mkVector 1 Infinity 0]).
Proof.
  assert (Hn : ~ finite (mkVector 1 Infinity 0)).
  { intros (r & s & t & [=]). }
  split; [reflexivity |]. split; [exact Hn |].
  exact (proj1 (X9_normalize_edge [mkVector 1 Infinity 0] 0%nat _ eq_refl) Hn).
Defined.

(** ** X10, X11: magnitudes after [setMag], [maxMag], [minMag] and
    [constrainMag] *)

(** The rescaling step [this.div(mag).mult(m)] on finite fields not all
    zero leaves the magnitude [|m|]. *)
Lemma rescaled_fields (a b c m : R) :
  a <> 0 \/ b <> 0 \/ c <> 0 ->
  let v := mkVector (Fin a) (Fin b) (Fin c) in
  let n := sqrt (a * a + b * b + c * c) in
  mult_fields (div_fields v (hypot3 v)) (Fin m)
  = mkVector (Fin (a / n * m)) (Fin (b / n * m)) (Fin (c / n * m)).
Proof.
  intros H v n. pose proof (sqrt_sum_squares_pos a b c H) as Hn. fold n in Hn.
  change (hypot3 v) with (Fin n).
  unfold div_fields. cbn [isFinite negb orb neq]. rewrite Reqb_false by lra.
  unfold v. cbn [x y z ndiv]. rewrite Reqb_false by lra. reflexivity.
Qed.

Lemma rescaled_magnitude (a b c m : R) :
  a <> 0 \/ b <> 0 \/ c <> 0 ->
  let v := mkVector (Fin a) (Fin b) (Fin c) in
  hypot3 (mult_fields (div_fields v (hypot3 v)) (Fin m)) = Fin (Rabs m).
Proof.
  intros H v. unfold v. rewrite (rescaled_fields a b c m H). cbv zeta.
  pose proof (unit_sum a b c H) as Hu. cbv zeta in Hu.
  set (n := sqrt (a * a + b * b + c * c)) in *.
  unfold hypot3. cbn [x y z]. rewrite hypot_finite. f_equal.
  replace (a / n * m * (a / n * m) + b / n * m * (b / n * m)
           + c / n * m * (c / n * m))
    with (Rsqr m * (a / n * (a / n) + b / n * (b / n) + c / n * (c / n)))
    by (unfold Rsqr; ring).
  rewrite Hu, Rmult_1_r. apply sqrt_Rsqr_abs.
Qed.

(** X10.  On finite fields not all zero, [setMag(m)] with a finite [m]
    leaves a vector of magnitude [|m|] (a negative [m] reverses it), and
    [setMag(Infinity)] leaves a vector of magnitude 1: [mult] skips the
    infinite factor after [div] has normalized.  On the zero vector
    [setMag] changes nothing, whatever its argument. *)
Theorem X10_setMag_magnitude (h : heap) (this : ref) (a b c m : R)
    (mg : number) :
  (h !! this = Some (mkVector (Fin a) (Fin b) (Fin c)) ->
   a <> 0 \/ b <> 0 \/ c <> 0 ->
   (exists h',
       VectorClass.setMag this (Fin m) h = Some (this, h') /\
       VectorClass.mag this h' = Some (Fin (Rabs m), h')) /\
   (exists h',
       VectorClass.setMag this Infinity h = Some (this, h') /\
       VectorClass.mag this h' = Some (Fin 1, h'))) /\
  (h !! this = Some (mkVector 0 0 0) ->
   VectorClass.setMag this mg h = Some (this, h)).
Proof.
  split.
  - intros Hthis Hnz. split.
    + eexists. split; [apply (Vector_setMag_run h this _ Hthis) |].
      erewrite Vector_mag_run by heap_lookup.
      rewrite (rescaled_magnitude a b c m Hnz). reflexivity.
    + eexists. split; [apply (Vector_setMag_run h this _ Hthis) |].
      erewrite Vector_mag_run by heap_lookup.
      unfold mult_fields. cbn [isFinite].
      pose proof (sqrt_sum_squares_pos a b c Hnz) as Hn.
      change (hypot3 (mkVector (Fin a) (Fin b) (Fin c)))
        with (Fin (sqrt (a * a + b * b + c * c))).
      unfold div_fields. cbn [isFinite negb orb neq]. rewrite Reqb_false by lra.
      cbn [x y z ndiv]. rewrite Reqb_false by lra.
      unfold hypot3. cbn [x y z]. rewrite hypot_finite.
      rewrite (unit_sum_squares a b c Hnz : _ = 1). reflexivity.
  - intros Hthis. rewrite (Vector_setMag_run h this _ Hthis).
    rewrite hypot3_of_zero, div_fields_zero_divisor, mult_fields_zero.
    rewrite list_insert_id by exact Hthis. reflexivity.
Qed.

Lemma X10_setMag_magnitude_witness :
  [mkVector (Fin 3) (Fin 4) 0] !! 0%nat = Some (mkVector (Fin 3) (Fin 4) (Fin 0)) /\
  (3 <> 0 \/ 4 <> 0 \/ 0 <> 0) /\
  exists h',
    VectorClass.setMag 0%nat (Fin (-10)) [mkVector (Fin 3) (Fin 4) 0]
    = Some (0%nat, h') /\
    VectorClass.mag 0%nat h' = Some (Fin (Rabs (-10)), h').
Proof.
  assert (H3 : 3 <> 0 \/ 4 <> 0 \/ 0 <> 0) by (left; lra).
  split; [reflexivity |]. split; [exact H3 |].
  exact (proj1 (proj1 (X10_setMag_magnitude [mkVector (Fin 3) (Fin 4) 0] 0%nat
                         3 4 0 (-10) 0) eq_refl H3)).
Defined.

(** X11.  On finite fields not all zero, of magnitude [n]: [maxMag(m)]
    with a finite [m >= 0] leaves the magnitude [min(n, m)], and with a
    finite [m < 0] the magnitude [-m], reversing the vector, however short
    it was; [minMag(m)] with a finite [m] leaves the magnitude
    [max(n, m)]; [constrainMag(lo, hi)] with finite [lo <= hi] and
    [0 <= hi] leaves a magnitude inside [lo, hi], and the fields as they
    were when [n] is already inside. *)
Theorem X11_magnitude_bounds (h : heap) (this : ref) (a b c m lo hi : R) :
  h !! this = Some (mkVector (Fin a) (Fin b) (Fin c)) ->
  a <> 0 \/ b <> 0 \/ c <> 0 ->
  let n := sqrt (a * a + b * b + c * c) in
  (0 <= m ->
   exists h', VectorClass.maxMag this (Fin m) h = Some (this, h') /\
              VectorClass.mag this h' = Some (Fin (Rmin n m), h')) /\
  (m < 0 ->
   exists h', VectorClass.maxMag this (Fin m) h = Some (this, h') /\
              VectorClass.mag this h' = Some (Fin (- m), h')) /\
  (exists h', VectorClass.minMag this (Fin m) h = Some (this, h') /\
              VectorClass.mag this h' = Some (Fin (Rmax n m), h')) /\
  (lo <= hi -> 0 <= hi ->
   exists h' r, VectorClass.constrainMag this (Fin lo) (Fin hi) h = Some (this, h') /\
                VectorClass.mag this h' = Some (Fin r, h') /\
                lo <= r <= hi /\
                (lo <= n <= hi -> h' = h)).
Proof.
  intros Hthis Hnz n.
  pose proof (sqrt_sum_squares_pos a b c Hnz) as Hn. fold n in Hn.
  set (v := mkVector (Fin a) (Fin b) (Fin c)) in *.
  assert (Hh : hypot3 v = Fin n) by reflexivity.
  assert (Hre : forall k, hypot3 (mult_fields (div_fields v (hypot3 v)) (Fin k))
                          = Fin (Rabs k)).
  { intros k. apply (rescaled_magnitude a b c k Hnz). }
  assert (Hkeep : <[this := v]> h = h) by (apply list_insert_id, Hthis).
  split; [| split; [| split]].
  - intros Hm. eexists. split; [apply (Vector_maxMag_run h this v Hthis) |].
    erewrite Vector_mag_run by heap_lookup. do 2 f_equal.
    rewrite Hh at 1. cbn [ngt nlt]. unfold Rmin.
    destruct (Rlt_dec m n) as [Hlt | Hge].
    + rewrite Rltb_true by exact Hlt. rewrite Hre, Rabs_pos_eq by exact Hm.
      destruct (Rle_dec n m); [lra | reflexivity].
    + rewrite Rltb_false by exact Hge. rewrite Hh.
      destruct (Rle_dec n m); [reflexivity | lra].
  - intros Hm. eexists. split; [apply (Vector_maxMag_run h this v Hthis) |].
    erewrite Vector_mag_run by heap_lookup. do 2 f_equal.
    rewrite Hh at 1. cbn [ngt nlt]. rewrite Rltb_true by lra.
    rewrite Hre, Rabs_left by exact Hm. reflexivity.
  - eexists. split; [apply (Vector_minMag_run h this v Hthis) |].
    erewrite Vector_mag_run by heap_lookup. do 2 f_equal.
    rewrite Hh at 1. cbn [nlt]. unfold Rmax.
    destruct (Rlt_dec n m) as [Hlt | Hge].
    + rewrite Rltb_true by exact Hlt. rewrite Hre, Rabs_pos_eq by lra.
      destruct (Rle_dec n m); [reflexivity | lra].
    + rewrite Rltb_false by exact Hge. rewrite Hh.
      destruct (Rle_dec n m) as [Hle | _]; [| reflexivity].
      f_equal. lra.
  - intros Hlohi Hhi.
    rewrite (Vector_constrainMag_run h this v Hthis).
    assert (Hc1 : (hypot3 v <? Fin lo)%J = Rltb n lo) by (rewrite Hh; reflexivity).
    assert (Hc2 : (hypot3 v >? Fin hi)%J = Rltb hi n) by (rewrite Hh; reflexivity).
    rewrite Hc1, Hc2.
    destruct (Rlt_dec n lo) as [Hlt | Hge].
    + rewrite Rltb_true by exact Hlt.
      eexists _, _. split; [reflexivity |]. split.
      * erewrite Vector_mag_run by heap_lookup. rewrite Hre. reflexivity.
      * rewrite Rabs_pos_eq by lra. split; [lra | intros; lra].
    + rewrite Rltb_false by exact Hge.
      destruct (Rlt_dec hi n) as [Hgt | Hle].
      * rewrite Rltb_true by exact Hgt.
        eexists _, _. split; [reflexivity |]. split.
        -- erewrite Vector_mag_run by heap_lookup. rewrite Hre. reflexivity.
        -- rewrite Rabs_pos_eq by lra. split; [lra | intros; lra].
      * rewrite Rltb_false by exact Hle. rewrite Hkeep.
        exists h, n. split; [reflexivity |]. split.
        -- rewrite (Vector_mag_run h this v Hthis), Hh. reflexivity.
        -- split; [lra | reflexivity].
Qed.

Lemma X11_magnitude_bounds_witness :
  [mkVector (Fin 3) (Fin 4) 0] !! 0%nat = Some (mkVector (Fin 3) (Fin 4) (Fin 0)) /\
  (3 <> 0 \/ 4 <> 0 \/ 0 <> 0) /\
  -1 < 0 /\
  exists h',
    VectorClass.maxMag 0%nat (Fin (-1)) [mkVector (Fin 3) (Fin 4) 0]
    = Some (0%nat, h') /\
    VectorClass.mag 0%nat h' = Some (Fin (- -1), h').
Proof.
  assert (H3 : 3 <> 0 \/ 4 <> 0 \/ 0 <> 0) by (left; lra).
  assert (Hm : -1 < 0) by lra.
  split; [reflexivity |]. split; [exact H3 |]. split; [exact Hm |].
  exact (proj1 (proj2 (X11_magnitude_bounds [mkVector (Fin 3) (Fin 4) 0] 0%nat
                         3 4 0 (-1) 0 0 eq_refl H3)) Hm).
Defined.

(** ** X12 to X15: the rotations *)

Lemma or_else_finite (r : R) : (Fin r || 0)%J = Fin r.
Proof.
  unfold or_else. cbn. destruct (Req_dec_T r 0) as [-> | Hr].
  - rewrite Reqb_true by reflexivity. reflexivity.
  - rewrite Reqb_false by exact Hr. reflexivity.
Qed.

Lemma or_else_not_NaN (a : number) : (a || 0)%J <> NaN.
Proof.
  unfold or_else. destruct a as [r| | |]; cbn; try discriminate.
  destruct (negb (Reqb r 0)); discriminate.
Qed.

Section RotationsFinite.
Variables (h : heap) (this : ref) (a b c t : R).
Hypothesis Hthis : h !! this = Some (mkVector (Fin a) (Fin b) (Fin c)).

Lemma rotate_finite :
  VectorClass.rotate this (Fin t) h =
  Some (this, <[this := mkVector (Fin (a * cos t - b * sin t))
                                 (Fin (a * sin t + b * cos t))
                                 (Fin c)]> h).
Proof.
  rewrite (Vector_rotate_run h this _ Hthis). cbn. rewrite !or_else_finite.
  num_eq.
Qed.

Lemma rotateX_finite :
  VectorClass.rotateX this (Fin t) h =
  Some (this, <[this := mkVector (Fin a)
                                 (Fin (b * cos t - c * sin t))
                                 (Fin (b * sin t + c * cos t))]> h).
Proof.
  rewrite (Vector_rotateX_run h this _ Hthis). cbn. rewrite !or_else_finite.
  num_eq.
Qed.

Lemma rotateY_finite :
  VectorClass.rotateY this (Fin t) h =
  Some (this, <[this := mkVector (Fin (a * cos t + c * sin t))
                                 (Fin b)
                                 (Fin (c * cos t - a * sin t))]> h).
Proof.
  rewrite (Vector_rotateY_run h this _ Hthis). cbn. rewrite !or_else_finite.
  num_eq.
Qed.

End RotationsFinite.

Lemma cos2_sin2 (t : R) : cos t * cos t + sin t * sin t = 1.
Proof. pose proof (sin2_cos2 t) as H. unfold Rsqr in H. lra. Qed.

(** X12.  On finite fields and for a finite angle, [rotate], [rotateX]
    and [rotateY] keep the magnitude of the vector, and each keeps the
    field of its axis ([z], [x], [y]). *)
Theorem X12_rotations_keep_magnitude (h : heap) (this : ref) (a b c t : R) :
  h !! this = Some (mkVector (Fin a) (Fin b) (Fin c)) ->
  let n := Fin (sqrt (a * a + b * b + c * c)) in
  (exists h' v',
      VectorClass.rotate this (Fin t) h = Some (this, h') /\
      h' !! this = Some v' /\ z v' = Fin c /\
      VectorClass.mag this h' = Some (n, h')) /\
  (exists h' v',
      VectorClass.rotateX this (Fin t) h = Some (this, h') /\
      h' !! this = Some v' /\ x v' = Fin a /\
      VectorClass.mag this h' = Some (n, h')) /\
  (exists h' v',
      VectorClass.rotateY this (Fin t) h = Some (this, h') /\
      h' !! this = Some v' /\ y v' = Fin b /\
      VectorClass.mag this h' = Some (n, h')).
Proof.
  intros Hthis n. pose proof (cos2_sin2 t) as Hcs.
  split; [| split]; eexists _, _.
  - split; [apply (rotate_finite h this a b c t Hthis) |].
    split; [heap_lookup |]. split; [reflexivity |].
    erewrite Vector_mag_run by heap_lookup. unfold hypot3, n. cbn [x y z].
    rewrite hypot_finite.
    replace ((a * cos t - b * sin t) * (a * cos t - b * sin t)
             + (a * sin t + b * cos t) * (a * sin t + b * cos t))
      with ((a * a + b * b) * (cos t * cos t + sin t * sin t)) by ring.
    rewrite Hcs, Rmult_1_r. reflexivity.
  - split; [apply (rotateX_finite h this a b c t Hthis) |].
    split; [heap_lookup |]. split; [reflexivity |].
    erewrite Vector_mag_run by heap_lookup. unfold hypot3, n. cbn [x y z].
    rewrite hypot_finite.
    replace (a * a + (b * cos t - c * sin t) * (b * cos t - c * sin t)
             + (b * sin t + c * cos t) * (b * sin t + c * cos t))
      with (a * a + (b * b + c * c) * (cos t * cos t + sin t * sin t)) by ring.
    rewrite Hcs, Rmult_1_r, Rplus_assoc. reflexivity.
  - split; [apply (rotateY_finite h this a b c t Hthis) |].
    split; [heap_lookup |]. split; [reflexivity |].
    erewrite Vector_mag_run by heap_lookup. unfold hypot3, n. cbn [x y z].
    rewrite hypot_finite.
    replace ((a * cos t + c * sin t) * (a * cos t + c * sin t) + b * b
             + (c * cos t - a * sin t) * (c * cos t - a * sin t))
      with ((a * a + c * c) * (cos t * cos t + sin t * sin t) + b * b) by ring.
    rewrite Hcs, Rmult_1_r.
    replace (a * a + c * c + b * b) with (a * a + b * b + c * c) by ring.
    reflexivity.
Qed.

Lemma X12_rotations_keep_magnitude_witness :
  [mkVector (Fin 3) (Fin 4) 0] !! 0%nat = Some (mkVector (Fin 3) (Fin 4) (Fin 0)) /\
  exists h' v',
    VectorClass.rotate 0%nat (Fin 1) [mkVector (Fin 3) (Fin 4) 0]
    = Some (0%nat, h') /\
    h' !! 0%nat = Some v' /\ z v' = Fin 0 /\
    VectorClass.mag 0%nat h' = Some (Fin (sqrt (3 * 3 + 4 * 4 + 0 * 0)), h').
Proof.
  split; [reflexivity |].
  exact (proj1 (X12_rotations_keep_magnitude [mkVector (Fin 3) (Fin 4) 0] 0%nat
                  3 4 0 1 eq_refl)).
Defined.

(** X13.  On finite fields, rotating by [s] and then by [t] is rotating by
    [s + t], for each of [rotate], [rotateX] and [rotateY] (arithmetic on
    finite numbers being exact). *)
Theorem X13_rotations_compose (h : heap) (this : ref) (a b c s t : R) :
  h !! this = Some (mkVector (Fin a) (Fin b) (Fin c)) ->
  (let* r := VectorClass.rotate this (Fin s) in VectorClass.rotate r (Fin t)) h
  = VectorClass.rotate this (Fin (s + t)) h /\
  (let* r := VectorClass.rotateX this (Fin s) in VectorClass.rotateX r (Fin t)) h
  = VectorClass.rotateX this (Fin (s + t)) h /\
  (let* r := VectorClass.rotateY this (Fin s) in VectorClass.rotateY r (Fin t)) h
  = VectorClass.rotateY this (Fin (s + t)) h.
Proof.
  intros Hthis. split; [| split].
  - rewrite (bind_run _ _ _ _ _ (rotate_finite h this a b c s Hthis)).
    erewrite rotate_finite by heap_lookup.
    rewrite (rotate_finite h this a b c (s + t) Hthis).
    rewrite list_insert_insert_eq, cos_plus, sin_plus. num_eq.
  - rewrite (bind_run _ _ _ _ _ (rotateX_finite h this a b c s Hthis)).
    erewrite rotateX_finite by heap_lookup.
    rewrite (rotateX_finite h this a b c (s + t) Hthis).
    rewrite list_insert_insert_eq, cos_plus, sin_plus. num_eq.
  - rewrite (bind_run _ _ _ _ _ (rotateY_finite h this a b c s Hthis)).
    erewrite rotateY_finite by heap_lookup.
    rewrite (rotateY_finite h this a b c (s + t) Hthis).
    rewrite list_insert_insert_eq, cos_plus, sin_plus. num_eq.
Qed.

Lemma X13_rotations_compose_witness :
  [mkVector (Fin 3) (Fin 4) 0] !! 0%nat = Some (mkVector (Fin 3) (Fin 4) (Fin 0)) /\
  (let* r := VectorClass.rotate 0%nat (Fin 1) in VectorClass.rotate r (Fin 2))
    [mkVector (Fin 3) (Fin 4) 0]
  = VectorClass.rotate 0%nat (Fin (1 + 2)) [mkVector (Fin 3) (Fin 4) 0].
Proof.
  split; [reflexivity |].
  exact (proj1 (X13_rotations_compose [mkVector (Fin 3) (Fin 4) 0] 0%nat
                  3 4 0 1 2 eq_refl)).
Defined.

Lemma quarter_turn : (Math.PI / 2)%J = Fin (PI / 2).
Proof. unfold Math.PI. cbn. rewrite Reqb_false by lra. reflexivity. Qed.

(** X14.  On finite fields, four rotations by [Math.PI / 2], by any one of
    [rotate], [rotateX] and [rotateY], give the vector its fields back
    (arithmetic on finite numbers being exact, [Math.PI] standing for the
    real number pi). *)
Theorem X14_four_quarter_turns (h : heap) (this : ref) (a b c : R) :
  h !! this = Some (mkVector (Fin a) (Fin b) (Fin c)) ->
  let q := (Math.PI / 2)%J in
  (let* r1 := VectorClass.rotate this q in
   let* r2 := VectorClass.rotate r1 q in
   let* r3 := VectorClass.rotate r2 q in
   VectorClass.rotate r3 q) h = Some (this, h) /\
  (let* r1 := VectorClass.rotateX this q in
   let* r2 := VectorClass.rotateX r1 q in
   let* r3 := VectorClass.rotateX r2 q in
   VectorClass.rotateX r3 q) h = Some (this, h) /\
  (let* r1 := VectorClass.rotateY this q in
   let* r2 := VectorClass.rotateY r1 q in
   let* r3 := VectorClass.rotateY r2 q in
   VectorClass.rotateY r3 q) h = Some (this, h).
Proof.
  intros Hthis q. unfold q. rewrite quarter_turn.
  split; [| split].
  - rewrite (bind_run _ _ _ _ _ (rotate_finite h this a b c _ Hthis)).
    erewrite (bind_run (VectorClass.rotate _ _))
      by (eapply rotate_finite; heap_lookup).
    erewrite (bind_run (VectorClass.rotate _ _))
      by (eapply rotate_finite; heap_lookup).
    erewrite rotate_finite by heap_lookup.
    rewrite !list_insert_insert_eq, cos_PI2, sin_PI2.
    rewrite <- (list_insert_id h this _ Hthis) at 2. num_eq.
  - rewrite (bind_run _ _ _ _ _ (rotateX_finite h this a b c _ Hthis)).
    erewrite (bind_run (VectorClass.rotateX _ _))
      by (eapply rotateX_finite; heap_lookup).
    erewrite (bind_run (VectorClass.rotateX _ _))
      by (eapply rotateX_finite; heap_lookup).
    erewrite rotateX_finite by heap_lookup.
    rewrite !list_insert_insert_eq, cos_PI2, sin_PI2.
    rewrite <- (list_insert_id h this _ Hthis) at 2. num_eq.
  - rewrite (bind_run _ _ _ _ _ (rotateY_finite h this a b c _ Hthis)).
    erewrite (bind_run (VectorClass.rotateY _ _))
      by (eapply rotateY_finite; heap_lookup).
    erewrite (bind_run (VectorClass.rotateY _ _))
      by (eapply rotateY_finite; heap_lookup).
    erewrite rotateY_finite by heap_lookup.
    rewrite !list_insert_insert_eq, cos_PI2, sin_PI2.
    rewrite <- (list_insert_id h this _ Hthis) at 2. num_eq.
Qed.

Lemma X14_four_quarter_turns_witness :
  [mkVector (Fin 3) (Fin 4) 0] !! 0%nat = Some (mkVector (Fin 3) (Fin 4) (Fin 0)) /\
  (let* r1 := VectorClass.rotate 0%nat (Math.PI / 2) in
   let* r2 := VectorClass.rotate r1 (Math.PI / 2) in
   let* r3 := VectorClass.rotate r2 (Math.PI / 2) in
   VectorClass.rotate r3 (Math.PI / 2)) [mkVector (Fin 3) (Fin 4) 0]
  = Some (0%nat, [mkVector (Fin 3) (Fin 4) 0]).
Proof.
  split; [reflexivity |].
  exact (proj1 (X14_four_quarter_turns [mkVector (Fin 3) (Fin 4) 0] 0%nat
                  3 4 0 eq_refl)).
Defined.

Lemma cos_not_finite (angle : number) : isFinite angle = false -> Math.cos angle = NaN.
Proof. destruct angle; [discriminate | reflexivity ..]. Qed.

Lemma sin_not_finite (angle : number) : isFinite angle = false -> Math.sin angle = NaN.
Proof. destruct angle; [discriminate | reflexivity ..]. Qed.

(** X15.  The rotations never leave NaN in a coordinate they compute,
    whatever the fields and the angle: after [rotate] the fields [x] and
    [y] are not NaN and [z] is as it was (likewise [y], [z] and [x] for
    [rotateX]; [x], [z] and [y] for [rotateY]).  With an angle that is
    infinite or NaN the two computed coordinates are set to 0. *)
Theorem X15_rotations_never_NaN (h : heap) (this : ref) (v : Vector)
    (angle : number) :
  h !! this = Some v ->
  (exists v', VectorClass.rotate this angle h = Some (this, <[this := v']> h) /\
              x v' <> NaN /\ y v' <> NaN /\ z v' = z v /\
              (isFinite angle = false -> v' = mkVector 0 0 (z v))) /\
  (exists v', VectorClass.rotateX this angle h = Some (this, <[this := v']> h) /\
              y v' <> NaN /\ z v' <> NaN /\ x v' = x v /\
              (isFinite angle = false -> v' = mkVector (x v) 0 0)) /\
  (exists v', VectorClass.rotateY this angle h = Some (this, <[this := v']> h) /\
              x v' <> NaN /\ z v' <> NaN /\ y v' = y v /\
              (isFinite angle = false -> v' = mkVector 0 (y v) 0)).
Proof.
  intros Hthis. split; [| split]; eexists.
  - split; [apply (Vector_rotate_run h this v Hthis) |]. cbn [x y z].
    split; [apply or_else_not_NaN |]. split; [apply or_else_not_NaN |].
    split; [reflexivity |]. intros Hn.
    rewrite (cos_not_finite angle Hn), (sin_not_finite angle Hn).
    cbn [nneg]. rewrite !nmul_NaN_r. reflexivity.
  - split; [apply (Vector_rotateX_run h this v Hthis) |]. cbn [x y z].
    split; [apply or_else_not_NaN |]. split; [apply or_else_not_NaN |].
    split; [reflexivity |]. intros Hn.
    rewrite (cos_not_finite angle Hn), (sin_not_finite angle Hn).
    cbn [nneg]. rewrite !nmul_NaN_r. reflexivity.
  - split; [apply (Vector_rotateY_run h this v Hthis) |]. cbn [x y z].
    split; [apply or_else_not_NaN |]. split; [apply or_else_not_NaN |].
    split; [reflexivity |]. intros Hn.
    rewrite (cos_not_finite angle Hn), (sin_not_finite angle Hn).
    cbn [nneg]. rewrite !nmul_NaN_r. reflexivity.
Qed.

Lemma X15_rotations_never_NaN_witness :
  [mkVector NaN 1 2] !! 0%nat = Some (mkVector NaN 1 2) /\
  exists v',
    VectorClass.rotate 0%nat Infinity [mkVector NaN 1 2]
    = Some (0%nat, <[0%nat := v']> [mkVector NaN 1 2]) /\
    x v' <> NaN /\ y v' <> NaN /\ z v' = z (mkVector NaN 1 2) /\
    (isFinite Infinity = false -> v' = mkVector 0 0 (z (mkVector NaN 1 2))).
Proof.
  split; [reflexivity |].
  exact (proj1 (X15_rotations_never_NaN [mkVector NaN 1 2] 0%nat _ Infinity
                  eq_refl)).
Defined.

(** ** X16: [cross] *)

(** X16.  [cross] is anticommutative on all fields: [b.cross(a)] holds the
    negated fields of [a.cross(b)], each in a new object and with the
    arguments untouched; and, on finite fields and in exact arithmetic,
    [a.cross(a)] is (0, 0, 0). *)
Theorem X16_cross_anticommutative (h : heap) (a b : ref) (v w : Vector) :
  h !! a = Some v ->
  h !! b = Some w ->
  (exists c : Vector,
      VectorClass.cross a b h = Some (length h, h ++ [c]) /\
      VectorClass.cross b a h
      = Some (length h, h ++ [mkVector (- x c) (- y c) (- z c)])) /\
  (finite v ->
   VectorClass.cross a a h = Some (length h, h ++ [mkVector 0 0 0])).
Proof.
  intros Ha Hb. split.
  - eexists. split; [apply (Vector_cross_run h a v Ha b w Hb) |].
    rewrite (Vector_cross_run h b w Hb a v Ha). cbn [x y z].
    rewrite <- !nsub_swap.
    rewrite (nmul_comm (y w) (z v)), (nmul_comm (z w) (y v)),
      (nmul_comm (z w) (x v)), (nmul_comm (x w) (z v)),
      (nmul_comm (x w) (y v)), (nmul_comm (y w) (x v)).
    reflexivity.
  - intros (r & s & t & ->). rewrite (Vector_cross_run h a _ Ha a _ Ha).
    cbn. num_eq.
Qed.

Lemma X16_cross_anticommutative_witness :
  [mkVector 1 0 0; mkVector 0 1 0] !! 0%nat = Some (mkVector 1 0 0) /\
  [mkVector 1 0 0; mkVector 0 1 0] !! 1%nat = Some (mkVector 0 1 0) /\
  exists c : Vector,
    VectorClass.cross 0%nat 1%nat [mkVector 1 0 0; mkVector 0 1 0]
    = Some (2%nat, [mkVector 1 0 0; mkVector 0 1 0; c]) /\
    VectorClass.cross 1%nat 0%nat [mkVector 1 0 0; mkVector 0 1 0]
    = Some (2%nat, [mkVector 1 0 0; mkVector 0 1 0;
                    mkVector (- x c) (- y c) (- z c)]).
Proof.
  split; [reflexivity |]. split; [reflexivity |].
  exact (proj1 (X16_cross_anticommutative [mkVector 1 0 0; mkVector 0 1 0]
                  0%nat 1%nat _ _ eq_refl eq_refl)).
Defined.

(** ** X17: [max] and [min] *)

Lemma nlt_asym (a b : number) : (a <? b)%J = true -> (b <? a)%J = false.
Proof.
  destruct a, b; cbn; try reflexivity; try discriminate.
  intros H. apply Rltb_spec' in H. apply Rltb_false. lra.
Qed.

(** X17.  [a.max(b)] returns [a] or [b], without touching the heap, and
    neither [a] nor [b] has a magnitude strictly greater than that of the
    object returned; [a.min(b)] likewise, with no magnitude strictly
    smaller.  When a magnitude is NaN both return the argument [b]. *)
Theorem X17_max_min_extremal (h : heap) (a b : ref) (v w : Vector) :
  h !! a = Some v ->
  h !! b = Some w ->
  (exists r u, VectorClass.max a b h = Some (r, h) /\ (r = a \/ r = b) /\
               h !! r = Some u /\
               (hypot3 u <? hypot3 v)%J = false /\
               (hypot3 u <? hypot3 w)%J = false) /\
  (exists r u, VectorClass.min a b h = Some (r, h) /\ (r = a \/ r = b) /\
               h !! r = Some u /\
               (hypot3 v <? hypot3 u)%J = false /\
               (hypot3 w <? hypot3 u)%J = false) /\
  (hypot3 v = NaN \/ hypot3 w = NaN ->
   VectorClass.max a b h = Some (b, h) /\ VectorClass.min a b h = Some (b, h)).
Proof.
  intros Ha Hb.
  rewrite (Vector_max_run h a v Ha b w Hb), (Vector_min_run h a v Ha b w Hb).
  unfold ngt. split; [| split].
  - destruct (hypot3 w <? hypot3 v)%J eqn:Hc.
    + exists a, v. repeat split; auto using nlt_irrefl, nlt_asym.
    + exists b, w. repeat split; auto using nlt_irrefl.
  - destruct (hypot3 v <? hypot3 w)%J eqn:Hc.
    + exists a, v. repeat split; auto using nlt_irrefl, nlt_asym.
    + exists b, w. repeat split; auto using nlt_irrefl.
  - intros [Hn | Hn]; rewrite Hn; destruct (hypot3 v), (hypot3 w);
      try discriminate; split; reflexivity.
Qed.

Lemma X17_max_min_extremal_witness :
  [mkVector 1 0 0; mkVector 0 NaN 0] !! 0%nat = Some (mkVector 1 0 0) /\
  [mkVector 1 0 0; mkVector 0 NaN 0] !! 1%nat = Some (mkVector 0 NaN 0) /\
  (hypot3 (mkVector 1 0 0) = NaN \/ hypot3 (mkVector 0 NaN 0) = NaN) /\
  VectorClass.max 0%nat 1%nat [mkVector 1 0 0; mkVector 0 NaN 0]
  = Some (1%nat, [mkVector 1 0 0; mkVector 0 NaN 0]) /\
  VectorClass.min 0%nat 1%nat [mkVector 1 0 0; mkVector 0 NaN 0]
  = Some (1%nat, [mkVector 1 0 0; mkVector 0 NaN 0]).
Proof.
  assert (Hn : hypot3 (mkVector 1 0 0) = NaN \/ hypot3 (mkVector 0 NaN 0) = NaN).
  { right. reflexivity. }
  split; [reflexivity |]. split; [reflexivity |]. split; [exact Hn |].
  exact (proj2 (proj2 (X17_max_min_extremal [mkVector 1 0 0; mkVector 0 NaN 0]
                         0%nat 1%nat _ _ eq_refl eq_refl)) Hn).
Defined.

(** ** X18: [scalarProyection] *)

(** X18.  For finite fields, with [d] the difference of [vector] and
    [vertex] and [o] that of [otherVector] and [vertex]: when [d] is not
    zero, [scalarProyection] returns a new object holding
    [vertex + ((o . d) / (d . d)) d], the orthogonal projection of
    [otherVector] on the line through [vertex] and [vector], so that the
    difference of [otherVector] and the result is orthogonal to [d]; when
    [d] is zero it returns a new object holding the fields of [vertex]
    (arithmetic on finite numbers being exact). *)
Theorem X18_scalarProyection (h : heap) (vertex vector otherVector : ref)
    (px py pz vx vy vz wx wy wz : R) :
  h !! vertex = Some (mkVector (Fin px) (Fin py) (Fin pz)) ->
  h !! vector = Some (mkVector (Fin vx) (Fin vy) (Fin vz)) ->
  h !! otherVector = Some (mkVector (Fin wx) (Fin wy) (Fin wz)) ->
  let dx := vx - px in let dy := vy - py in let dz := vz - pz in
  let ox := wx - px in let oy := wy - py in let oz := wz - pz in
  exists (rx ry rz : R) (k : list Vector),
    VectorFunctions.scalarProyection vertex vector otherVector h
    = Some (S (S (length h)), h ++ k ++ [mkVector (Fin rx) (Fin ry) (Fin rz)]) /\
    length k = 2%nat /\
    (dx <> 0 \/ dy <> 0 \/ dz <> 0 ->
     let t := (ox * dx + oy * dy + oz * dz) / (dx * dx + dy * dy + dz * dz) in
     rx = px + t * dx /\ ry = py + t * dy /\ rz = pz + t * dz /\
     (wx - rx) * dx + (wy - ry) * dy + (wz - rz) * dz = 0) /\
    (dx = 0 /\ dy = 0 /\ dz = 0 -> rx = px /\ ry = py /\ rz = pz).
Proof.
  intros Hp Hv Hw dx dy dz ox oy oz.
  rewrite (scalarProyection_run h vertex vector otherVector _ _ _ Hp Hv Hw).
  assert (Hd : difference (mkVector (Fin vx) (Fin vy) (Fin vz))
                 (mkVector (Fin px) (Fin py) (Fin pz))
               = mkVector (Fin dx) (Fin dy) (Fin dz)) by reflexivity.
  assert (Ho : difference (mkVector (Fin wx) (Fin wy) (Fin wz))
                 (mkVector (Fin px) (Fin py) (Fin pz))
               = mkVector (Fin ox) (Fin oy) (Fin oz)) by reflexivity.
  unfold projected. rewrite Hd, Ho.
  destruct (all_zero_dec dx dy dz) as [(Hx & Hy & Hz) | Hnz].
  - rewrite Hx, Hy, Hz, normalize_fields_zero. cbn [x y z nmul nadd].
    rewrite mult_fields_zero. cbn [x y z nadd].
    eexists _, _, _, [_; _]. split; [reflexivity |]. split; [reflexivity |].
    split; [intros [H | [H | H]]; contradiction |].
    intros _. repeat split; ring.
  - rewrite (normalize_fields_finite dx dy dz Hnz).
    pose proof (sqrt_sum_squares_pos dx dy dz Hnz) as Hm.
    assert (Hmm : sqrt (dx * dx + dy * dy + dz * dz)
                  * sqrt (dx * dx + dy * dy + dz * dz)
                  = dx * dx + dy * dy + dz * dz).
    { apply sqrt_sqrt, sum_squares_nonneg. }
    set (m := sqrt (dx * dx + dy * dy + dz * dz)) in *.
    cbv zeta. cbn [x y z nmul nadd]. unfold mult_fields.
    cbn [isFinite x y z nmul nadd].
    eexists _, _, _, [_; _]. split; [reflexivity |]. split; [reflexivity |].
    split; [| intros (Hx & Hy & Hz); destruct Hnz as [H | [H | H]]; contradiction].
    intros _. cbv zeta.
    split; [rewrite <- Hmm; field; lra |].
    split; [rewrite <- Hmm; field; lra |].
    split; [rewrite <- Hmm; field; lra |].
    match goal with
    | |- ?L = 0 =>
        replace L
          with ((ox * dx + oy * dy + oz * dz)
                * (1 - (dx * dx + dy * dy + dz * dz) / (m * m)))
          by (unfold ox, oy, oz; field; lra)
    end.
    rewrite <- Hmm. field. lra.
Qed.

Lemma X18_scalarProyection_witness :
  [mkVector 0 0 0; mkVector 2 0 0; mkVector 1 1 0] !! 0%nat = Some (mkVector 0 0 0) /\
  [mkVector 0 0 0; mkVector 2 0 0; mkVector 1 1 0] !! 1%nat
  = Some (mkVector (Fin 2) (Fin 0) (Fin 0)) /\
  [mkVector 0 0 0; mkVector 2 0 0; mkVector 1 1 0] !! 2%nat = Some (mkVector 1 1 0) /\
  exists (rx ry rz : R) (k : list Vector),
    VectorFunctions.scalarProyection 0%nat 1%nat 2%nat
      [mkVector 0 0 0; mkVector 2 0 0; mkVector 1 1 0]
    = Some (5%nat,
            [mkVector 0 0 0; mkVector 2 0 0; mkVector 1 1 0] ++ k
            ++ [mkVector (Fin rx) (Fin ry) (Fin rz)]) /\
    length k = 2%nat /\
    (2 - 0 <> 0 \/ 0 - 0 <> 0 \/ 0 - 0 <> 0 ->
     let t := ((1 - 0) * (2 - 0) + (1 - 0) * (0 - 0) + (0 - 0) * (0 - 0))
              / ((2 - 0) * (2 - 0) + (0 - 0) * (0 - 0) + (0 - 0) * (0 - 0)) in
     rx = 0 + t * (2 - 0) /\ ry = 0 + t * (0 - 0) /\ rz = 0 + t * (0 - 0) /\
     (1 - rx) * (2 - 0) + (1 - ry) * (0 - 0) + (0 - rz) * (0 - 0) = 0) /\
    (2 - 0 = 0 /\ 0 - 0 = 0 /\ 0 - 0 = 0 -> rx = 0 /\ ry = 0 /\ rz = 0).
Proof.
  split; [reflexivity |]. split; [reflexivity |]. split; [reflexivity |].
  exact (X18_scalarProyection [mkVector 0 0 0; mkVector 2 0 0; mkVector 1 1 0]
           0%nat 1%nat 2%nat 0 0 0 2 0 0 1 1 0 eq_refl eq_refl eq_refl).
Defined.

(** ** X19: the generators *)

(** X19.  For finite angles [fromAngle] and [fromAngles] return a new
    object of magnitude 1, and so do [random2D] and [random3D] whatever
    finite numbers [Math.random()] returns; the vectors of [fromAngle] and
    [random2D] have [z = 0]. *)
Theorem X19_generators_unit (h : heap) (t p u u' : R) :
  (exists v, VectorFunctions.fromAngle (Fin t) h = Some (length h, h ++ [v]) /\
             hypot3 v = Fin 1 /\ z v = Fin 0) /\
  (exists v, VectorFunctions.fromAngles (Fin p) (Fin t) h
             = Some (length h, h ++ [v]) /\
             hypot3 v = Fin 1) /\
  (exists v, VectorFunctions.random2D (Fin u) h = Some (length h, h ++ [v]) /\
             hypot3 v = Fin 1 /\ z v = Fin 0) /\
  (exists v, VectorFunctions.random3D (Fin u) (Fin u') h
             = Some (length h, h ++ [v]) /\
             hypot3 v = Fin 1).
Proof.
  assert (H2 : forall s, hypot3 (mkVector (Math.cos (Fin s)) (Math.sin (Fin s)) 0)
                         = Fin 1).
  { intros s. unfold hypot3, Math.cos, Math.sin. cbn [x y z].
    rewrite hypot_finite. f_equal.
    replace (cos s * cos s + sin s * sin s + 0 * 0)
      with (cos s * cos s + sin s * sin s) by ring.
    rewrite cos2_sin2. apply sqrt_1. }
  assert (H3 : forall r s,
             hypot3 (mkVector (Math.sin (Fin s) * Math.cos (Fin r))
                              (Math.sin (Fin s) * Math.sin (Fin r))
                              (Math.cos (Fin s)))
             = Fin 1).
  { intros r s. unfold hypot3, Math.cos, Math.sin. cbn [x y z nmul].
    rewrite hypot_finite. f_equal.
    replace (sin s * cos r * (sin s * cos r) + sin s * sin r * (sin s * sin r)
             + cos s * cos s)
      with (sin s * sin s * (cos r * cos r + sin r * sin r) + cos s * cos s)
      by ring.
    rewrite cos2_sin2, Rmult_1_r, Rplus_comm, cos2_sin2. apply sqrt_1. }
  split; [| split; [| split]]; eexists.
  - split; [apply fromAngle_run |]. split; [apply H2 | reflexivity].
  - split; [apply fromAngles_run |]. apply H3.
  - split; [apply fromAngle_run |]. split; [apply H2 | reflexivity].
  - split; [apply fromAngles_run |]. apply H3.
Qed.

(** ** X20: [changeOfBasis] without arguments *)

(** X20.  On finite fields, [changeOfBasis()] with its three basis vectors
    left out, and [changeOfBasis(new Vector(1), new Vector(0, 1),
    new Vector(0, 0, 1))] alike, leave the receiver as it was; the call
    without arguments allocates the three standard basis vectors. *)
Theorem X20_changeOfBasis_standard (h : heap) (this vi vj vk : ref) (v : Vector) :
  finite v ->
  h !! this = Some v ->
  VectorClass.changeOfBasis this None None None h
  = Some (this, h ++ [mkVector 1 0 0; mkVector 0 1 0; mkVector 0 0 1]) /\
  (h !! vi = Some (mkVector 1 0 0) ->
   h !! vj = Some (mkVector 0 1 0) ->
   h !! vk = Some (mkVector 0 0 1) ->
   VectorClass.changeOfBasis this (Some vi) (Some vj) (Some vk) h
   = Some (this, h)).
Proof.
  intros (a & b & c & ->) Hthis. split.
  - rewrite Vector_changeOfBasis_default. cbn [basis_or fst snd].
    erewrite Vector_changeOfBasis_run by heap_lookup.
    rewrite <- !app_assoc. cbn [app x y z nmul nadd].
    erewrite <- (list_insert_id (h ++ _) this) at 2 by (apply lookup_old, Hthis).
    num_eq.
  - intros Hi Hj Hk.
    erewrite Vector_changeOfBasis_run by eassumption.
    cbn [x y z nmul nadd].
    rewrite <- (list_insert_id h this _ Hthis) at 2. num_eq.
Qed.

Lemma X20_changeOfBasis_standard_witness :
  finite (mkVector 1 2 0) /\
  [mkVector 1 2 0] !! 0%nat = Some (mkVector 1 2 0) /\
  VectorClass.changeOfBasis 0%nat None None None [mkVector 1 2 0]
  = Some (0%nat, [mkVector 1 2 0] ++ [mkVector 1 0 0; mkVector 0 1 0; mkVector 0 0 1]).
Proof.
  assert (Hv : finite (mkVector 1 2 0)) by (exists 1, 2, 0; reflexivity).
  split; [exact Hv |]. split; [reflexivity |].
  exact (proj1 (X20_changeOfBasis_standard [mkVector 1 2 0] 0%nat 0%nat 0%nat 0%nat
                  _ Hv eq_refl)).
Defined.

(** ** X21, X22: [angleBetween] *)

(** X21.  The method [angleBetween] returns NaN or a finite angle between
    0 and pi, on all fields, and leaves the heap as it is. *)
Theorem X21_angleBetween_range (h : heap) (a b : ref) (v w : Vector) :
  h !! a = Some v ->
  h !! b = Some w ->
  exists r : number,
    VectorClass.angleBetween a b h = Some (r, h) /\
    (r = NaN \/ exists t, r = Fin t /\ 0 <= t <= PI).
Proof.
  intros Ha Hb. rewrite (Vector_angleBetween_run h a v Ha b w Hb). cbv zeta.
  eexists. split; [reflexivity |].
  destruct (hypot3 v * hypot3 w ==? 0)%J.
  - right. exists 0. split; [reflexivity |]. pose proof PI_RGT_0. lra.
  - destruct (clamp_range
                ((x v * x w + y v * y w + z v * z w) / (hypot3 v * hypot3 w))%J)
      as [[_ Hq] | (r & Hr & Hrange)]; cbv zeta in *.
    + left. rewrite Hq. reflexivity.
    + right. rewrite Hr. cbn. rewrite !Rleb_true by lra. cbn.
      exists (acos r). split; [reflexivity | apply acos_bound].
Qed.

Lemma X21_angleBetween_range_witness :
  [mkVector 1 0 0; mkVector 0 Infinity 0] !! 0%nat = Some (mkVector 1 0 0) /\
  [mkVector 1 0 0; mkVector 0 Infinity 0] !! 1%nat = Some (mkVector 0 Infinity 0) /\
  exists r : number,
    VectorClass.angleBetween 0%nat 1%nat [mkVector 1 0 0; mkVector 0 Infinity 0]
    = Some (r, [mkVector 1 0 0; mkVector 0 Infinity 0]) /\
    (r = NaN \/ exists t, r = Fin t /\ 0 <= t <= PI).
Proof.
  split; [reflexivity |]. split; [reflexivity |].
  exact (X21_angleBetween_range [mkVector 1 0 0; mkVector 0 Infinity 0]
           0%nat 1%nat _ _ eq_refl eq_refl).
Defined.

(** X22.  On finite fields not all zero, the angle of a vector with itself
    is 0, and the angle of two vectors whose dot product is 0 is
    [pi / 2] (arithmetic on finite numbers being exact). *)
Theorem X22_angleBetween_self_perpendicular (h : heap) (a b : ref)
    (ax ay az bx by' bz : R) :
  h !! a = Some (mkVector (Fin ax) (Fin ay) (Fin az)) ->
  h !! b = Some (mkVector (Fin bx) (Fin by') (Fin bz)) ->
  ax <> 0 \/ ay <> 0 \/ az <> 0 ->
  bx <> 0 \/ by' <> 0 \/ bz <> 0 ->
  VectorClass.angleBetween a a h = Some (Fin 0, h) /\
  (ax * bx + ay * by' + az * bz = 0 ->
   VectorClass.angleBetween a b h = Some (Fin (PI / 2), h)).
Proof.
  intros Ha Hb Hna Hnb.
  pose proof (sqrt_sum_squares_pos ax ay az Hna) as Hma.
  pose proof (sqrt_sum_squares_pos bx by' bz Hnb) as Hmb.
  assert (Hmm : sqrt (ax * ax + ay * ay + az * az)
                * sqrt (ax * ax + ay * ay + az * az)
                = ax * ax + ay * ay + az * az).
  { apply sqrt_sqrt, sum_squares_nonneg. }
  split.
  - rewrite (Vector_angleBetween_run h a _ Ha a _ Ha). cbv zeta.
    unfold hypot3. cbn [x y z]. rewrite hypot_finite.
    set (m := sqrt (ax * ax + ay * ay + az * az)) in *.
    cbn [nmul nadd ndiv neq]. rewrite !(Reqb_false (m * m) 0) by nra.
    rewrite <- Hmm. replace (m * m / (m * m)) with 1 by (field; lra).
    num_simp. rewrite acos_1. reflexivity.
  - intros Hdot. rewrite (Vector_angleBetween_run h a _ Ha b _ Hb). cbv zeta.
    unfold hypot3. cbn [x y z]. rewrite !hypot_finite.
    set (m := sqrt (ax * ax + ay * ay + az * az)) in *.
    set (m' := sqrt (bx * bx + by' * by' + bz * bz)) in *.
    cbn [nmul nadd ndiv neq]. rewrite !(Reqb_false (m * m') 0) by nra.
    rewrite Hdot. replace (0 / (m * m')) with 0 by (field; nra).
    num_simp. rewrite acos_0. reflexivity.
Qed.

Lemma X22_angleBetween_self_perpendicular_witness :
  [mkVector 1 0 0; mkVector 0 1 0] !! 0%nat = Some (mkVector (Fin 1) (Fin 0) (Fin 0)) /\
  [mkVector 1 0 0; mkVector 0 1 0] !! 1%nat = Some (mkVector (Fin 0) (Fin 1) (Fin 0)) /\
  (1 <> 0 \/ 0 <> 0 \/ 0 <> 0) /\ (0 <> 0 \/ 1 <> 0 \/ 0 <> 0) /\
  1 * 0 + 0 * 1 + 0 * 0 = 0 /\
  VectorClass.angleBetween 0%nat 1%nat [mkVector 1 0 0; mkVector 0 1 0]
  = Some (Fin (PI / 2), [mkVector 1 0 0; mkVector 0 1 0]).
Proof.
  assert (Hna : 1 <> 0 \/ 0 <> 0 \/ 0 <> 0) by (left; lra).
  assert (Hnb : 0 <> 0 \/ 1 <> 0 \/ 0 <> 0) by (right; left; lra).
  assert (Hdot : 1 * 0 + 0 * 1 + 0 * 0 = 0) by lra.
  split; [reflexivity |]. split; [reflexivity |]. split; [exact Hna |].
  split; [exact Hnb |]. split; [exact Hdot |].
  exact (proj2 (X22_angleBetween_self_perpendicular
                  [mkVector 1 0 0; mkVector 0 1 0] 0%nat 1%nat 1 0 0 0 1 0
                  eq_refl eq_refl Hna Hnb) Hdot).
Defined.

(** ** X23: [mag] and [magSq] *)

(** X23.  On finite fields [magSq()] is the square of [mag()], and it is
    not negative; neither touches the heap. *)
Theorem X23_magSq_square (h : heap) (this : ref) (a b c : R) :
  h !! this = Some (mkVector (Fin a) (Fin b) (Fin c)) ->
  exists m s : R,
    VectorClass.mag this h = Some (Fin m, h) /\
    VectorClass.magSq this h = Some (Fin s, h) /\
    s = m * m /\ 0 <= m /\ 0 <= s.
Proof.
  intros Hthis.
  exists (sqrt (a * a + b * b + c * c)), (a * a + b * b + c * c).
  split; [apply (Vector_mag_run h this _ Hthis) |].
  split; [apply (Vector_magSq_run h this _ Hthis) |].
  split; [symmetry; apply sqrt_sqrt, sum_squares_nonneg |].
  split; [apply sqrt_pos | apply sum_squares_nonneg].
Qed.

Lemma X23_magSq_square_witness :
  [mkVector (Fin 3) (Fin 4) 0] !! 0%nat = Some (mkVector (Fin 3) (Fin 4) (Fin 0)) /\
  exists m s : R,
    VectorClass.mag 0%nat [mkVector (Fin 3) (Fin 4) 0]
    = Some (Fin m, [mkVector (Fin 3) (Fin 4) 0]) /\
    VectorClass.magSq 0%nat [mkVector (Fin 3) (Fin 4) 0]
    = Some (Fin s, [mkVector (Fin 3) (Fin 4) 0]) /\
    s = m * m /\ 0 <= m /\ 0 <= s.
Proof.
  split; [reflexivity |].
  exact (X23_magSq_square [mkVector (Fin 3) (Fin 4) 0] 0%nat 3 4 0 eq_refl).
Defined.

(** ** X24: [copy] *)

(** X24.  [copy] returns a new object holding the fields of its receiver
    and changes no other object; whatever method that works in place is
    then called on the copy, the receiver of [copy] keeps its fields. *)
Theorem X24_copy_independent (h : heap) (a : ref) (v : Vector) (m : mutation) :
  h !! a = Some v ->
  Forall (fun r => is_Some (h !! r)) (mutation_arguments m) ->
  VectorClass.copy a h = Some (length h, h ++ [v]) /\
  length h <> a /\
  exists h',
    (let* c := VectorClass.copy a in apply_mutation c m) h
    = Some (length h, h') /\
    h' !! a = Some v /\
    is_Some (h' !! length h).
Proof.
  intros Ha Hargs. pose proof (lookup_lt_Some _ _ _ Ha) as Hlt.
  split; [apply Vector_copy_run, Ha |]. split; [lia |].
  assert (Hargs' : Forall (fun r => is_Some ((h ++ [v]) !! r))
                     (mutation_arguments m)).
  { eapply Forall_impl; [exact Hargs |]. intros r [u Hu].
    exists u. apply lookup_old, Hu. }
  destruct (mutation_run (h ++ [v]) (length h) v m (lookup_new h v) Hargs')
    as (v' & k & Hrun).
  eexists. split.
  - rewrite (bind_run _ _ _ _ _ (Vector_copy_run h a v Ha)). exact Hrun.
  - split.
    + rewrite list_lookup_insert_ne by lia. apply lookup_old, lookup_old, Ha.
    + eexists. apply list_lookup_insert_eq. rewrite !length_app. simpl. lia.
Qed.

Lemma X24_copy_independent_witness :
  [mkVector 1 2 0] !! 0%nat = Some (mkVector 1 2 0) /\
  Forall (fun r => is_Some ([mkVector 1 2 0] !! r))
    (mutation_arguments (do_mult 2)) /\
  exists h',
    (let* c := VectorClass.copy 0%nat in apply_mutation c (do_mult 2))
      [mkVector 1 2 0]
    = Some (1%nat, h') /\
    h' !! 0%nat = Some (mkVector 1 2 0) /\
    is_Some (h' !! 1%nat).
Proof.
  assert (Hargs : Forall (fun r => is_Some ([mkVector 1 2 0] !! r))
                    (mutation_arguments (do_mult 2))) by constructor.
  split; [reflexivity |]. split; [exact Hargs |].
  exact (proj2 (proj2 (X24_copy_independent [mkVector 1 2 0] 0%nat _ (do_mult 2)
                         eq_refl Hargs))).
Defined.

(** ** X25: the methods that only read *)

(** X25.  [magSq], [mag], [toArray], [equals], [dist], [distSq], [dot],
    [angleBetween], [max] and [min] return and leave the heap exactly as it
    was; [toArray] returns the three fields in the order x, y, z. *)
Theorem X25_readers_leave_heap (h : heap) (a b : ref) (v w : Vector) :
  h !! a = Some v ->
  h !! b = Some w ->
  (exists r, VectorClass.magSq a h = Some (r, h)) /\
  (exists r, VectorClass.mag a h = Some (r, h)) /\
  VectorClass.toArray a h = Some ([x v; y v; z v], h) /\
  (exists r, VectorClass.equals a b h = Some (r, h)) /\
  (exists r, VectorClass.dist a b h = Some (r, h)) /\
  (exists r, VectorClass.distSq a b h = Some (r, h)) /\
  (exists r, VectorClass.dot a b h = Some (r, h)) /\
  (exists r, VectorClass.angleBetween a b h = Some (r, h)) /\
  (exists r, VectorClass.max a b h = Some (r, h)) /\
  (exists r, VectorClass.min a b h = Some (r, h)).
Proof.
  intros Ha Hb.
  rewrite (Vector_magSq_run h a v Ha), (Vector_mag_run h a v Ha),
    (Vector_toArray_run h a v Ha), (Vector_equals_run h a v Ha b w Hb),
    (Vector_dist_run h a v Ha b w Hb), (Vector_distSq_run h a v Ha b w Hb),
    (Vector_dot_run h a v Ha b w Hb),
    (Vector_angleBetween_run h a v Ha b w Hb),
    (Vector_max_run h a v Ha b w Hb), (Vector_min_run h a v Ha b w Hb).
  repeat split; eexists; reflexivity.
Qed.

Lemma X25_readers_leave_heap_witness :
  [mkVector 1 2 0; mkVector 0 1 2] !! 0%nat = Some (mkVector 1 2 0) /\
  [mkVector 1 2 0; mkVector 0 1 2] !! 1%nat = Some (mkVector 0 1 2) /\
  VectorClass.toArray 0%nat [mkVector 1 2 0; mkVector 0 1 2]
  = Some ([Fin 1; Fin 2; Fin 0], [mkVector 1 2 0; mkVector 0 1 2]).
Proof.
  split; [reflexivity |]. split; [reflexivity |].
  exact (proj1 (proj2 (proj2
           (X25_readers_leave_heap [mkVector 1 2 0; mkVector 0 1 2]
              0%nat 1%nat _ _ eq_refl eq_refl)))).
Defined.

(** ** X26, X27: the free functions [normalize], [setMag] and [lerp] *)

(** X26.  On finite fields not all zero, the free function [normalize]
    returns a new object of magnitude 1 and [setMag] with a finite [m] a
    new object of magnitude [|m|]; on the zero vector both return a new
    zero vector.  The argument keeps its fields. *)
Theorem X26_functions_normalize_setMag (h : heap) (vector : ref)
    (a b c m : R) (mg : number) :
  (h !! vector = Some (mkVector (Fin a) (Fin b) (Fin c)) ->
   a <> 0 \/ b <> 0 \/ c <> 0 ->
   (exists u, VectorFunctions.normalize vector h = Some (length h, h ++ [u]) /\
              hypot3 u = Fin 1) /\
   (exists u, VectorFunctions.setMag vector (Fin m) h = Some (length h, h ++ [u]) /\
              hypot3 u = Fin (Rabs m))) /\
  (h !! vector = Some (mkVector 0 0 0) ->
   VectorFunctions.normalize vector h = Some (length h, h ++ [mkVector 0 0 0]) /\
   VectorFunctions.setMag vector mg h = Some (length h, h ++ [mkVector 0 0 0])).
Proof.
  split.
  - intros Hv Hnz. split; eexists.
    + split; [apply (normalize_run h vector _ Hv) |].
      rewrite <- normalize_fields_inverse_fields.
      rewrite (normalize_fields_finite a b c Hnz). cbv zeta.
      unfold hypot3. cbn [x y z]. rewrite hypot_finite.
      rewrite (unit_sum_squares a b c Hnz : _ = 1). reflexivity.
    + split; [apply (setMag_run h vector _ Hv) |].
      rewrite inverse_fields_div_fields.
      apply (rescaled_magnitude a b c m Hnz).
  - intros Hv.
    rewrite (normalize_run h vector _ Hv), (setMag_run h vector _ Hv).
    rewrite <- normalize_fields_inverse_fields, normalize_fields_zero.
    rewrite mult_fields_zero. split; reflexivity.
Qed.

Lemma X26_functions_normalize_setMag_witness :
  [mkVector (Fin 3) (Fin 4) 0] !! 0%nat = Some (mkVector (Fin 3) (Fin 4) (Fin 0)) /\
  (3 <> 0 \/ 4 <> 0 \/ 0 <> 0) /\
  exists u,
    VectorFunctions.normalize 0%nat [mkVector (Fin 3) (Fin 4) 0]
    = Some (1%nat, [mkVector (Fin 3) (Fin 4) 0] ++ [u]) /\
    hypot3 u = Fin 1.
Proof.
  assert (H3 : 3 <> 0 \/ 4 <> 0 \/ 0 <> 0) by (left; lra).
  split; [reflexivity |]. split; [exact H3 |].
  exact (proj1 (proj1 (X26_functions_normalize_setMag
                         [mkVector (Fin 3) (Fin 4) 0] 0%nat 3 4 0 0 0)
                  eq_refl H3)).
Defined.

(** X27.  On finite fields and in exact arithmetic, the free function
    [lerp] with factor 0 returns a new object holding the fields of its
    first argument, and with factor 1 the fields of its second; both
    arguments keep their fields. *)
Theorem X27_function_lerp_ends (h : heap) (a b : ref) (v w : Vector) :
  h !! a = Some v ->
  h !! b = Some w ->
  finite v ->
  finite w ->
  VectorFunctions.lerp a b 0 h = Some (length h, h ++ [v]) /\
  VectorFunctions.lerp a b 1 h = Some (length h, h ++ [w]).
Proof.
  intros Ha Hb (r & s & t & ->) (r' & s' & t' & ->).
  rewrite !(lerp_run h a _ Ha b _ Hb). cbn. split; num_eq.
Qed.

Lemma X27_function_lerp_ends_witness :
  [mkVector 1 2 0; mkVector 0 1 2] !! 0%nat = Some (mkVector 1 2 0) /\
  [mkVector 1 2 0; mkVector 0 1 2] !! 1%nat = Some (mkVector 0 1 2) /\
  finite (mkVector 1 2 0) /\ finite (mkVector 0 1 2) /\
  VectorFunctions.lerp 0%nat 1%nat 1 [mkVector 1 2 0; mkVector 0 1 2]
  = Some (2%nat, [mkVector 1 2 0; mkVector 0 1 2] ++ [mkVector 0 1 2]).
Proof.
  assert (Hv : finite (mkVector 1 2 0)) by (exists 1, 2, 0; reflexivity).
  assert (Hw : finite (mkVector 0 1 2)) by (exists 0, 1, 2; reflexivity).
  split; [reflexivity |]. split; [reflexivity |].
  split; [exact Hv |]. split; [exact Hw |].
  exact (proj2 (X27_function_lerp_ends [mkVector 1 2 0; mkVector 0 1 2]
                  0%nat 1%nat _ _ eq_refl eq_refl Hv Hw)).
Defined.
